(** * Scene-transition state machine and camera controller of [src/App.jsx]

    A shallow embedding of the stateful core of the portfolio application:
    the React state of [App] ([speed], [currentScene], [isJumping], [flash],
    [timerRef]), the host's timer queue that [setTimeout]/[clearTimeout]
    act on, the event handlers ([handleJump], [startWarp], the [onMouseUp]
    arrow function), the per-frame callback of [CameraManager], and the
    scene-dependent props of [OrbitControls] and of the root container.

    Numbers: JavaScript numbers are modelled as exact rationals ([Q]) where
    the code computes with fractions (speed, camera position, field of view)
    and as integers ([Z]) for milliseconds, timer handles, pixels; the
    field-of-view line is also given in binary64, where its rounding shows.  Timers
    fire exactly when they are due, in order of due time and then of
    registration. *)

From Stdlib Require Import ZArith QArith Qabs Lqa Lia List String Bool.
From Corelib Require Import PrimFloat.
Import ListNotations.

Local Open Scope Z_scope.

(** ** Data model *)

(** The six string literals that [currentScene] ever holds. *)
Inductive SceneId : Type :=
  | travel | blackhole | wormhole | earth | projects | contact.

Definition SceneId_eqb (a b : SceneId) : bool :=
  match a, b with
  | travel, travel | blackhole, blackhole | wormhole, wormhole
  | earth, earth | projects, projects | contact, contact => true
  | _, _ => false
  end.

Definition sceneName (s : SceneId) : string :=
  match s with
  | travel => "travel" | blackhole => "blackhole" | wormhole => "wormhole"
  | earth => "earth" | projects => "projects" | contact => "contact"
  end.

(** The closures handed to [setTimeout], one constructor per arrow function. *)
Inductive Callback : Type :=
  | JumpFlash (nextScene : SceneId)  (* lines 139-147, delay 1000 *)
  | JumpSwap (nextScene : SceneId)   (* lines 141-146, delay 200 *)
  | FlashOff                         (* line 145, delay 800 *)
  | WarpFire.                        (* line 152, delay 5000 *)

Record Timer : Type := mkTimer { tid : Z; due : Z; cb : Callback }.

Record State : Type := mkState {
  speed : Q;
  currentScene : SceneId;
  isJumping : bool;
  flash : bool;
  timerRef : option Z;         (* [timerRef.current]; [None] is [null] *)
  scrollX : Z;
  scrollY : Z;
  now : Z;                     (* the host clock, in ms *)
  timers : list Timer;         (* pending timers, in order of registration *)
  nextId : Z                   (* the handle the next [setTimeout] returns *)
}.

(** ** A small state monad for the handlers *)

Definition M (A : Type) : Type := State -> A * State.

Definition ret {A} (a : A) : M A := fun s => (a, s).
Definition bind {A B} (m : M A) (k : A -> M B) : M B :=
  fun s => let (a, s') := m s in k a s'.
Definition exec {A} (m : M A) (s : State) : State := snd (m s).

Declare Scope handler_scope.
Delimit Scope handler_scope with handler.
Notation "x <- m ;; k" := (bind m (fun x => k))
  (at level 61, m at next level, right associativity) : handler_scope.
Notation "m ;; k" := (bind m (fun _ => k))
  (at level 61, right associativity) : handler_scope.
Local Open Scope handler_scope.

Definition setSpeed (v : Q) : M unit := fun s =>
  (tt, mkState v (currentScene s) (isJumping s) (flash s) (timerRef s)
         (scrollX s) (scrollY s) (now s) (timers s) (nextId s)).

Definition setCurrentScene (v : SceneId) : M unit := fun s =>
  (tt, mkState (speed s) v (isJumping s) (flash s) (timerRef s)
         (scrollX s) (scrollY s) (now s) (timers s) (nextId s)).

Definition setIsJumping (v : bool) : M unit := fun s =>
  (tt, mkState (speed s) (currentScene s) v (flash s) (timerRef s)
         (scrollX s) (scrollY s) (now s) (timers s) (nextId s)).

Definition setFlash (v : bool) : M unit := fun s =>
  (tt, mkState (speed s) (currentScene s) (isJumping s) v (timerRef s)
         (scrollX s) (scrollY s) (now s) (timers s) (nextId s)).

Definition setTimerRef (v : option Z) : M unit := fun s =>
  (tt, mkState (speed s) (currentScene s) (isJumping s) (flash s) v
         (scrollX s) (scrollY s) (now s) (timers s) (nextId s)).

Definition getTimerRef : M (option Z) := fun s => (timerRef s, s).

Definition scrollTo (x y : Z) : M unit := fun s =>
  (tt, mkState (speed s) (currentScene s) (isJumping s) (flash s) (timerRef s)
         x y (now s) (timers s) (nextId s)).

Definition setNow (t : Z) (s : State) : State :=
  mkState (speed s) (currentScene s) (isJumping s) (flash s) (timerRef s)
    (scrollX s) (scrollY s) t (timers s) (nextId s).

Definition setTimers (l : list Timer) (s : State) : State :=
  mkState (speed s) (currentScene s) (isJumping s) (flash s) (timerRef s)
    (scrollX s) (scrollY s) (now s) l (nextId s).

(** [setTimeout(c, delay)]: registers a timer due [delay] ms from now and
    returns its fresh handle. *)
Definition setTimeout (c : Callback) (delay : Z) : M Z := fun s =>
  (nextId s,
   mkState (speed s) (currentScene s) (isJumping s) (flash s) (timerRef s)
     (scrollX s) (scrollY s) (now s)
     (timers s ++ [mkTimer (nextId s) (now s + delay) c]) (nextId s + 1)).

Definition dropTimer (i : Z) (l : list Timer) : list Timer :=
  filter (fun t => negb (tid t =? i)) l.

(** [clearTimeout(h)]: removes the pending timer with that handle; a [null],
    fired or already cleared handle removes nothing. *)
Definition clearTimeout (h : option Z) : M unit := fun s =>
  match h with
  | None => (tt, s)
  | Some i => (tt, setTimers (dropTimer i (timers s)) s)
  end.

(** ** The handlers of [App] *)

(** [nextScene === 'travel' ? 1 : 0.2] *)
Definition restingSpeed (scene : SceneId) : Q :=
  if SceneId_eqb scene travel then 1%Q else 0.2%Q.

Definition handleJump (nextScene : SceneId) : M unit :=
  setIsJumping true ;; setSpeed 12%Q ;;
  _ <- setTimeout (JumpFlash nextScene) 1000 ;;
  ret tt.

Definition startWarp : M unit :=
  setSpeed 8%Q ;;
  h <- setTimeout WarpFire 5000 ;;
  setTimerRef (Some h).

(** [() => {clearTimeout(timerRef.current); setSpeed(1)}] *)
Definition onMouseUp : M unit :=
  h <- getTimerRef ;;
  clearTimeout h ;;
  setSpeed 1%Q.

Definition runCallback (c : Callback) : M unit :=
  match c with
  | JumpFlash nextScene =>
      setFlash true ;;
      _ <- setTimeout (JumpSwap nextScene) 200 ;;
      ret tt
  | JumpSwap nextScene =>
      setCurrentScene nextScene ;; setIsJumping false ;;
      setSpeed (restingSpeed nextScene) ;;
      scrollTo 0 0 ;;
      _ <- setTimeout FlashOff 800 ;;
      ret tt
  | FlashOff => setFlash false
  | WarpFire => handleJump blackhole
  end.

(** [useState]/[useRef] initial values (lines 131-135); the page starts at
    the top, at time 0, with no timer registered. *)
Definition initialState : State :=
  mkState 1%Q travel false false None 0 0 0 [] 1.

(** ** The host's timer loop *)

(** The pending timer that fires first: least due time, and among equals the
    one registered first. *)
Fixpoint earliest (l : list Timer) : option Timer :=
  match l with
  | [] => None
  | t :: l' =>
      match earliest l' with
      | None => Some t
      | Some u => if due t <=? due u then Some t else Some u
      end
  end.

(** Firing a timer: it leaves the queue, the clock stands at its due time
    (or later, were it overdue), and its callback runs. *)
Definition fire (tm : Timer) (s : State) : State :=
  exec (runCallback (cb tm))
       (setNow (Z.max (now s) (due tm)) (setTimers (dropTimer (tid tm) (timers s)) s)).

(** How many firings a callback can still cause, itself included. *)
Definition cbWeight (c : Callback) : nat :=
  match c with
  | WarpFire => 4 | JumpFlash _ => 3 | JumpSwap _ => 2 | FlashOff => 1
  end.

Definition queueWeight (l : list Timer) : nat :=
  fold_right (fun t n => (cbWeight (cb t) + n)%nat) O l.

Fixpoint runTimers (fuel : nat) (target : Z) (s : State) : State :=
  match fuel with
  | O => s
  | S fuel' =>
      match earliest (timers s) with
      | None => s
      | Some tm =>
          if due tm <=? target then runTimers fuel' target (fire tm s) else s
      end
  end.

(** Let the clock run to [target], firing every timer that falls due. *)
Definition advanceTo (target : Z) (s : State) : State :=
  setNow target (runTimers (queueWeight (timers s)) target s).

Definition advance (d : Z) (s : State) : State := advanceTo (now s + d) s.

(** ** User events *)

(** The "advance" button each non-travel scene renders, with its target. *)
Definition nextButton (scene : SceneId) : option SceneId :=
  match scene with
  | travel => None
  | blackhole => Some wormhole
  | wormhole => Some earth
  | earth => Some projects
  | projects => Some contact
  | contact => Some travel
  end.

Inductive Event : Type :=
  | MouseDown            (* on INITIALIZE JUMP *)
  | MouseUp              (* on INITIALIZE JUMP *)
  | Click                (* on the current scene's advance button *)
  | Scroll (x y : Z)     (* the user scrolls the page *)
  | Tick (d : Z).        (* [d] ms pass *)

(** An event reaches a handler only if its control is mounted: the charge
    button is rendered in the travel scene only, every other scene renders
    its own advance button. *)
Definition dispatch (e : Event) (s : State) : option State :=
  match e with
  | MouseDown =>
      if SceneId_eqb (currentScene s) travel then Some (exec startWarp s) else None
  | MouseUp =>
      if SceneId_eqb (currentScene s) travel then Some (exec onMouseUp s) else None
  | Click =>
      match nextButton (currentScene s) with
      | Some target => Some (exec (handleJump target) s)
      | None => None
      end
  | Scroll x y => Some (exec (scrollTo x y) s)
  | Tick d => if 0 <=? d then Some (advance d s) else None
  end.

Fixpoint run (evs : list Event) (s : State) : option State :=
  match evs with
  | [] => Some s
  | e :: evs' =>
      match dispatch e s with
      | Some s' => run evs' s'
      | None => None
      end
  end.

Definition Reachable (s : State) : Prop :=
  exists evs, run evs initialState = Some s.

(** The spec's [Idle(scene)]: nothing in flight, at the scene's resting speed. *)
Definition Resting (s : State) : Prop :=
  timers s = [] /\ isJumping s = false /\ flash s = false /\
  speed s = restingSpeed (currentScene s).

(** ** Invariants of the reachable states *)

(** Handles are unique and below the next one to be issued. *)
Definition WfQueue (l : list Timer) (n : Z) : Prop :=
  NoDup (map tid l) /\ Forall (fun tm => tid tm < n) l.

(** Some pending timer will lead to a scene swap. *)
Definition pendingTransition (l : list Timer) : Prop :=
  exists tm, In tm l /\ cb tm <> FlashOff.

(** The literals the code ever passes to [setSpeed] or [useState]. *)
Definition assignedSpeed (q : Q) : Prop :=
  (q = 1 \/ q = 8 \/ q = 12 \/ q = 0.2)%Q.

Definition Inv (s : State) : Prop :=
  WfQueue (timers s) (nextId s) /\
  assignedSpeed (speed s) /\
  (speed s = restingSpeed (currentScene s) \/ pendingTransition (timers s)).

(** ** The camera controller (lines 8-19) *)

Local Open Scope Q_scope.

Record Camera : Type := mkCamera {
  posX : Q; posY : Q; posZ : Q;
  fov : Q;
  projFov : Q    (* the field of view the projection matrix was built from *)
}.

(** [Math.random] draws from a sequence the host owns; [cursor] counts the
    draws made so far. *)
Record Rng : Type := mkRng { draws : nat -> Q; cursor : nat }.

Definition random (g : Rng) : Q * Rng :=
  (draws g (cursor g), mkRng (draws g) (S (cursor g))).

(** [THREE.MathUtils.lerp(x, y, t)] returns [(1 - t) * x + t * y]; here in
    exact arithmetic, [lerp64] below is the same expression in doubles. *)
Definition lerp (x y t : Q) : Q := (1 - t) * x + t * y.

Definition updateProjectionMatrix (c : Camera) : Camera :=
  mkCamera (posX c) (posY c) (posZ c) (fov c) (fov c).

(** [speed > 1 && !isJumping] *)
Definition jitterCond (speed : Q) (isJumping : bool) : bool :=
  negb (Qle_bool speed 1) && negb isJumping.

Definition targetFOV (isJumping : bool) : Q := if isJumping then 140 else 75.

(** The [useFrame] callback, run once per rendered frame with the props of
    the latest render. *)
Definition cameraFrame (speed : Q) (isJumping : bool) (st : Rng * Camera)
  : Rng * Camera :=
  let (g, c) := st in
  let (g', c') :=
    if jitterCond speed isJumping then
      let (r1, g1) := random g in
      let cx := mkCamera (posX c + (r1 - 0.5) * (speed * 0.015))
                  (posY c) (posZ c) (fov c) (projFov c) in
      let (r2, g2) := random g1 in
      (g2, mkCamera (posX cx) (posY cx + (r2 - 0.5) * (speed * 0.015))
             (posZ cx) (fov cx) (projFov cx))
    else (g, c) in
  (g', updateProjectionMatrix
         (mkCamera (posX c') (posY c') (posZ c')
            (lerp (fov c') (targetFOV isJumping) 0.05) (projFov c'))).

(** Consecutive frames, each with the props current at that frame. *)
Fixpoint cameraFrames (props : list (Q * bool)) (st : Rng * Camera)
  : Rng * Camera :=
  match props with
  | [] => st
  | (sp, j) :: props' => cameraFrames props' (cameraFrame sp j st)
  end.

(** [<PerspectiveCamera makeDefault position={[0, 0, 10]} fov={...} />] *)
Definition initialCamera (innerWidth : Z) : Camera :=
  let f := if (innerWidth <? 768)%Z then 90 else 75 in
  mkCamera 0 0 10 f f.

(** The bounds of one jitter step at a given speed. *)
Definition jitterHalfWidth (speed : Q) : Q := 0.5 * (speed * 0.015).


Definition inHalfOpenRange (speed d : Q) : Prop :=
  - jitterHalfWidth speed <= d /\ d < jitterHalfWidth speed.


Local Close Scope Q_scope.

(** ** Scene-dependent props *)

(** [window.innerWidth < 768], the test every responsive scale uses. *)
Definition isMobile (innerWidth : Z) : bool := innerWidth <? 768.

Record OrbitProps : Type := mkOrbitProps {
  enableZoom : bool; enableRotate : bool; enablePan : bool
}.

(** Lines 214-218. *)
Definition orbitControls (currentScene : SceneId) (innerWidth : Z) : OrbitProps :=
  mkOrbitProps
    (SceneId_eqb currentScene contact)
    (negb (SceneId_eqb currentScene travel) && (768 <? innerWidth))
    false.

Definition dquote : string := String (Ascii.ascii_of_nat 34) EmptyString.

(** The [style] object of the root [div] (lines 156-159), in source order. *)
Definition rootStyle (currentScene : SceneId) : list (string * string) :=
  [ ("width", "100vw"); ("height", "100vh"); ("background", "#000");
    ("position", "relative");
    ("overflowY", if SceneId_eqb currentScene travel then "hidden" else "auto");
    ("color", "white");
    ("fontFamily", dquote ++ "Inter" ++ dquote ++ ", sans-serif") ]%string.

Fixpoint styleProp (k : string) (st : list (string * string)) : option string :=
  match st with
  | [] => None
  | (k', v) :: st' => if String.eqb k k' then Some v else styleProp k st'
  end.

Definition withoutProp (k : string) (st : list (string * string))
  : list (string * string) :=
  filter (fun kv => negb (String.eqb k (fst kv))) st.

(** ** Further invariants of the reachable states *)

(** The steps of a jump that still lead to its scene swap. *)
Definition isJumpStep (c : Callback) : bool :=
  match c with
  | JumpFlash _ | JumpSwap _ => true
  | FlashOff | WarpFire => false
  end.

(** The steps of a jump that still lead to [setFlash(false)]. *)
Definition clearsFlash (c : Callback) : bool :=
  match c with
  | JumpSwap _ | FlashOff => true
  | JumpFlash _ | WarpFire => false
  end.

(** The delay each closure is registered with. *)
Definition delayOf (c : Callback) : Z :=
  match c with
  | WarpFire => 5000 | JumpFlash _ => 1000 | JumpSwap _ => 200 | FlashOff => 800
  end.

(** The time from a closure's firing to the end of the chain it starts. *)
Definition tailOf (c : Callback) : Z :=
  match c with
  | WarpFire => 2000 | JumpFlash _ => 1000 | JumpSwap _ => 800 | FlashOff => 0
  end.

(** No pending timer is overdue, none is further away than its delay. *)
Definition Timely (s : State) : Prop :=
  Forall (fun tm => now s <= due tm <= now s + delayOf (cb tm)) (timers s).

(** [timerRef.current], when set, is a handle already issued, and the only
    pending timer it can name is a charge timer. *)
Definition RefIsCharge (s : State) : Prop :=
  forall i, timerRef s = Some i ->
    i < nextId s /\
    forall tm, In tm (timers s) -> tid tm = i -> cb tm = WarpFire.

Definition Coherent (s : State) : Prop :=
  WfQueue (timers s) (nextId s) /\
  RefIsCharge s /\
  (isJumping s = true ->
     exists tm, In tm (timers s) /\ isJumpStep (cb tm) = true) /\
  (flash s = true ->
     exists tm, In tm (timers s) /\ clearsFlash (cb tm) = true) /\
  (speed s = 12%Q -> isJumping s = true).

(** Every pending step belongs to a jump to [target]: no charge is pending
    and no jump to another scene. *)
Definition targetsOnly (target : SceneId) (l : list Timer) : Prop :=
  Forall (fun tm =>
            match cb tm with
            | JumpFlash n | JumpSwap n => n = target
            | FlashOff => True
            | WarpFire => False
            end) l.

(** The machine is on its way to [target], or there. *)
Definition Toward (target : SceneId) (s : State) : Prop :=
  WfQueue (timers s) (nextId s) /\
  targetsOnly target (timers s) /\
  (currentScene s = target \/
   exists tm, In tm (timers s) /\ isJumpStep (cb tm) = true).


(** ** The field of view in the code's own arithmetic *)

(** JavaScript numbers are IEEE 754 binary64 values, and so are Rocq's
    primitive floats, with the same rounding to nearest, ties to even.
    [0x1.999999999999ap-5] is the double the literal [0.05] denotes. *)
Definition lerp64 (x y t : PrimFloat.float) : PrimFloat.float :=
  PrimFloat.add (PrimFloat.mul (PrimFloat.sub 1%float t) x) (PrimFloat.mul t y).

Definition targetFOV64 (isJumping : bool) : PrimFloat.float :=
  if isJumping then 140%float else 75%float.

(** Line 15 on one frame. *)
Definition fovFrame64 (isJumping : bool) (fov : PrimFloat.float)
  : PrimFloat.float :=
  lerp64 fov (targetFOV64 isJumping) 0x1.999999999999ap-5%float.

Fixpoint fovFrames64 (n : nat) (isJumping : bool) (fov : PrimFloat.float)
  : PrimFloat.float :=
  match n with
  | O => fov
  | S n' => fovFrames64 n' isJumping (fovFrame64 isJumping fov)
  end.


(** ** The ship's animation effect (lines 21-26) *)

Local Open Scope Q_scope.

(** What [play()] and [setEffectiveTimeScale] set on an animation action. *)
Record Action : Type := mkAction { playing : bool; timeScale : Q }.

Inductive EffectOutcome : Type :=
  | EffectThrew
  | EffectDone (actions : option (list Action)).

(** [if (actions) Object.values(actions)[0].play().setEffectiveTimeScale(speed)]:
    with no clip in the model, [Object.values(actions)[0]] is [undefined]
    and the call throws. *)
Definition shipEffect (speed : Q) (actions : option (list Action))
  : EffectOutcome :=
  match actions with
  | None => EffectDone None
  | Some [] => EffectThrew
  | Some (_ :: rest) => EffectDone (Some (mkAction true speed :: rest))
  end.

Local Close Scope Q_scope.

(** ** What [App] mounts (lines 198-325) *)

(** [{cond && <X />}]: the element when the condition holds, else nothing. *)
Definition mountIf {A : Type} (cond : bool) (x : A) : list A :=
  if cond then [x] else [].

Inductive Model3D : Type :=
  | SpaceShip | BlackHole | WormholeModel | EarthModel
  | ProjectSceneModel | ContactModel.

(** The children of [Suspense] (lines 207-212). *)
Definition canvasModels (currentScene : SceneId) : list Model3D :=
  mountIf (SceneId_eqb currentScene travel) SpaceShip ++
  mountIf (SceneId_eqb currentScene blackhole) BlackHole ++
  mountIf (SceneId_eqb currentScene wormhole) WormholeModel ++
  mountIf (SceneId_eqb currentScene earth) EarthModel ++
  mountIf (SceneId_eqb currentScene projects) ProjectSceneModel ++
  mountIf (SceneId_eqb currentScene contact) ContactModel.

(** The control a content block carries: the charge button, or a button
    bound to [handleJump] of a fixed scene. *)
Inductive Control : Type :=
  | ChargeButton
  | JumpButton (nextScene : SceneId).

(** The six content blocks (lines 223, 231, 243, 264, 280, 297), each with
    the control it renders (lines 226, 238, 258, 274, 291, 322). *)
Definition contentBlocks (currentScene : SceneId) : list (nat * Control) :=
  mountIf (SceneId_eqb currentScene travel) (1%nat, ChargeButton) ++
  mountIf (SceneId_eqb currentScene blackhole) (2%nat, JumpButton wormhole) ++
  mountIf (SceneId_eqb currentScene wormhole) (3%nat, JumpButton earth) ++
  mountIf (SceneId_eqb currentScene earth) (4%nat, JumpButton projects) ++
  mountIf (SceneId_eqb currentScene projects) (5%nat, JumpButton contact) ++
  mountIf (SceneId_eqb currentScene contact) (6%nat, JumpButton travel).

(** The position of a model among the children of [Suspense]. *)
Definition modelIndex (m : Model3D) : nat :=
  match m with
  | SpaceShip => 1 | BlackHole => 2 | WormholeModel => 3
  | EarthModel => 4 | ProjectSceneModel => 5 | ContactModel => 6
  end.

(** [<Stars count={isJumping ? 15000 : 5000} />] *)
Definition starsCount (isJumping : bool) : Z := if isJumping then 15000 else 5000.

(** The flash overlay's [opacity: flash ? 1 : 0]. *)
Definition overlayOpacity (flash : bool) : Z := if flash then 1 else 0.

(** ** The per-frame callbacks of the scene models (lines 35-97) *)

Local Open Scope Q_scope.

(** The part of a mounted object the callbacks touch. *)
Record Object3D : Type := mkObject3D {
  rotationY : Q; rotationZ : Q; positionY : Q
}.

(** A callback either returns, with the ref as it leaves it, or throws. *)
Inductive Outcome : Type :=
  | Threw
  | Returned (ref : option Object3D).

(** [() => (ref.current.rotation.z += 0.005)]: no test of [ref.current]. *)
Definition wormholeFrame (ref : option Object3D) : Outcome :=
  match ref with
  | None => Threw
  | Some o =>
      Returned (Some (mkObject3D (rotationY o) (rotationZ o + 0.005) (positionY o)))
  end.

(** [() => { if (ref.current) ref.current.rotation.y += 0.003 }] *)
Definition earthFrame (ref : option Object3D) : Outcome :=
  match ref with
  | None => Returned None
  | Some o =>
      Returned (Some (mkObject3D (rotationY o + 0.003) (rotationZ o) (positionY o)))
  end.

(** [ref.current.rotation.y = Math.sin(state.clock.elapsedTime * 0.3) * 0.2],
    under [if (ref.current)]; [Math.sin] is a parameter. *)
Definition projectFrame (sin : Q -> Q) (elapsedTime : Q) (ref : option Object3D)
  : Outcome :=
  match ref with
  | None => Returned None
  | Some o =>
      Returned (Some (mkObject3D (sin (elapsedTime * 0.3) * 0.2)
                        (rotationZ o) (positionY o)))
  end.

(** [ref.current.position.y = Math.sin(state.clock.elapsedTime) * 0.15],
    under [if (ref.current)]. *)
Definition contactFrame (sin : Q -> Q) (elapsedTime : Q) (ref : option Object3D)
  : Outcome :=
  match ref with
  | None => Returned None
  | Some o =>
      Returned (Some (mkObject3D (rotationY o) (rotationZ o)
                        (sin elapsedTime * 0.15)))
  end.

(** A callback run on [n] consecutive frames; a throw ends the run. *)
Fixpoint framesOf (f : option Object3D -> Outcome) (n : nat)
  (ref : option Object3D) : Outcome :=
  match n with
  | O => Returned ref
  | S n' =>
      match f ref with
      | Threw => Threw
      | Returned ref' => framesOf f n' ref'
      end
  end.

(** The [scale] prop of each model's [primitive]; the ship has none. *)
Definition modelScale (m : Model3D) (innerWidth : Z) : option Q :=
  match m with
  | SpaceShip => None
  | BlackHole => Some (if (innerWidth <? 768)%Z then 1.5 else 2.5)
  | WormholeModel => Some (if (innerWidth <? 768)%Z then 10 else 15)
  | EarthModel => Some (if (innerWidth <? 768)%Z then 2 else 3.5)
  | ProjectSceneModel => Some (if (innerWidth <? 768)%Z then 4 else 6)
  | ContactModel => Some (if (innerWidth <? 768)%Z then 2 else 3)
  end.

Local Close Scope Q_scope.

(** * Properties *)

(** ** Sample runs *)

Lemma SceneId_eqb_spec (a b : SceneId) : reflect (a = b) (SceneId_eqb a b).
Proof. destruct a, b; simpl; constructor; congruence. Qed.

Example run_hold_7s :
  run [MouseDown; Tick 7000] initialState
  = Some (mkState 0.2%Q blackhole false false (Some 1) 0 0 7000 [] 5).
Proof. reflexivity. Qed.

Example run_hold_5s :
  run [MouseDown; Tick 5000] initialState
  = Some (mkState 12%Q travel true false (Some 1) 0 0 5000
            [mkTimer 2 6000 (JumpFlash blackhole)] 3).
Proof. reflexivity. Qed.

Example run_release_early :
  run [MouseDown; Tick 4999; MouseUp; Tick 10000] initialState
  = Some (mkState 1%Q travel false false (Some 1) 0 0 14999 [] 2).
Proof. reflexivity. Qed.

Example run_release_late :
  run [MouseDown; Tick 5500; MouseUp] initialState
  = Some (mkState 1%Q travel true false (Some 1) 0 0 5500
            [mkTimer 2 6000 (JumpFlash blackhole)] 3).
Proof. reflexivity. Qed.

(** ** The timer loop is total and complete *)

Lemma earliest_In (l : list Timer) (tm : Timer) :
  earliest l = Some tm -> In tm l.
Proof.
  revert tm; induction l as [|t l IH]; simpl; intros tm H; [discriminate|].
  destruct (earliest l) as [u|].
  - destruct (due t <=? due u); injection H as <-; auto.
  - injection H as <-; auto.
Qed.

Lemma earliest_None (l : list Timer) : earliest l = None -> l = [].
Proof.
  destruct l as [|t l]; simpl; [reflexivity|].
  destruct (earliest l) as [u|]; [destruct (due t <=? due u)|]; discriminate.
Qed.

Lemma earliest_least (l : list Timer) (tm : Timer) :
  earliest l = Some tm -> forall u, In u l -> due tm <= due u.
Proof.
  revert tm; induction l as [|t l IH]; simpl; intros tm H u Hu; [contradiction|].
  destruct (earliest l) as [m|] eqn:E.
  - specialize (IH m eq_refl).
    destruct (Z.leb_spec (due t) (due m)); injection H as <-.
    + destruct Hu as [<-|Hu]; [lia|]. specialize (IH u Hu). lia.
    + destruct Hu as [<-|Hu]; [lia|]. auto.
  - apply earliest_None in E; subst l. injection H as <-.
    destruct Hu as [<-|[]]. lia.
Qed.

Lemma queueWeight_app (l1 l2 : list Timer) :
  queueWeight (l1 ++ l2) = (queueWeight l1 + queueWeight l2)%nat.
Proof. induction l1 as [|t l1 IH]; simpl; [reflexivity|]. rewrite IH. lia. Qed.

Lemma queueWeight_drop (i : Z) (l : list Timer) :
  (queueWeight (dropTimer i l) <= queueWeight l)%nat.
Proof.
  induction l as [|t l IH]; simpl; [lia|].
  destruct (tid t =? i); simpl; lia.
Qed.

Lemma queueWeight_drop_In (tm : Timer) (l : list Timer) :
  In tm l ->
  (queueWeight (dropTimer (tid tm) l) + cbWeight (cb tm) <= queueWeight l)%nat.
Proof.
  induction l as [|t l IH]; simpl; [contradiction|].
  intros [->|H].
  - rewrite Z.eqb_refl; simpl. pose proof (queueWeight_drop (tid tm) l). lia.
  - specialize (IH H). destruct (tid t =? tid tm); simpl; lia.
Qed.

Lemma fire_timers (tm : Timer) (s : State) :
  timers (fire tm s) =
  dropTimer (tid tm) (timers s) ++
  match cb tm with
  | JumpFlash n =>
      [mkTimer (nextId s) (Z.max (now s) (due tm) + 200) (JumpSwap n)]
  | JumpSwap _ =>
      [mkTimer (nextId s) (Z.max (now s) (due tm) + 800) FlashOff]
  | FlashOff => []
  | WarpFire =>
      [mkTimer (nextId s) (Z.max (now s) (due tm) + 1000) (JumpFlash blackhole)]
  end.
Proof.
  unfold fire. destruct (cb tm); simpl; try reflexivity.
  now rewrite app_nil_r.
Qed.

Lemma fire_decreases (tm : Timer) (s : State) :
  In tm (timers s) ->
  (queueWeight (timers (fire tm s)) < queueWeight (timers s))%nat.
Proof.
  intros H. apply queueWeight_drop_In in H.
  rewrite fire_timers, queueWeight_app.
  destruct (cb tm); simpl in *; lia.
Qed.

Lemma runTimers_fuel (f f' : nat) (target : Z) (s : State) :
  (queueWeight (timers s) <= f)%nat -> (queueWeight (timers s) <= f')%nat ->
  runTimers f target s = runTimers f' target s.
Proof.
  revert f' s; induction f as [|f IH]; intros f' s Hf Hf'.
  - assert (E : queueWeight (timers s) = O) by lia.
    destruct (timers s) as [|t l] eqn:Et.
    + destruct f'; simpl; rewrite ?Et; reflexivity.
    + simpl in E. destruct (cb t); simpl in E; lia.
  - destruct f' as [|f'].
    + assert (E : queueWeight (timers s) = O) by lia.
      destruct (timers s) as [|t l] eqn:Et.
      * simpl; rewrite Et; reflexivity.
      * simpl in E. destruct (cb t); simpl in E; lia.
    + simpl. destruct (earliest (timers s)) as [tm|] eqn:E; [|reflexivity].
      destruct (due tm <=? target); [|reflexivity].
      pose proof (fire_decreases tm s (earliest_In _ _ E)).
      apply IH; lia.
Qed.

(** The loop's defining equation: fire the earliest timer if it is due by
    [target] and go on, else stop the clock at [target]. *)
Lemma advanceTo_eq (target : Z) (s : State) :
  advanceTo target s =
  match earliest (timers s) with
  | Some tm =>
      if due tm <=? target then advanceTo target (fire tm s)
      else setNow target s
  | None => setNow target s
  end.
Proof.
  unfold advanceTo.
  destruct (earliest (timers s)) as [tm|] eqn:E.
  - pose proof (fire_decreases tm s (earliest_In _ _ E)) as Hd.
    destruct (queueWeight (timers s)) as [|f] eqn:Ew; [lia|].
    simpl. rewrite E. destruct (due tm <=? target); [|reflexivity].
    f_equal. apply runTimers_fuel; lia.
  - apply earliest_None in E. rewrite E. reflexivity.
Qed.

(** An invariant of firing due timers and of the clock is an invariant of
    the loop. *)
Lemma advanceTo_ind (P : State -> Prop) (target : Z) :
  (forall s t, P s -> P (setNow t s)) ->
  (forall s tm, In tm (timers s) -> due tm <= target -> P s -> P (fire tm s)) ->
  forall s, P s -> P (advanceTo target s).
Proof.
  intros Hnow Hfire s.
  remember (queueWeight (timers s)) as w eqn:Ew.
  revert s Ew. induction w as [w IH] using lt_wf_ind. intros s Ew Hs.
  rewrite advanceTo_eq.
  destruct (earliest (timers s)) as [tm|] eqn:E; [|auto].
  destruct (Z.leb_spec (due tm) target); [|auto].
  pose proof (earliest_In _ _ E) as Hin.
  apply (IH (queueWeight (timers (fire tm s)))); auto.
  subst w. now apply fire_decreases.
Qed.

(** When the loop stops, no timer that was due by [target] is left. *)
Lemma advanceTo_settled (target : Z) (s : State) :
  Forall (fun tm => target < due tm) (timers (advanceTo target s)).
Proof.
  remember (queueWeight (timers s)) as w eqn:Ew.
  revert s Ew. induction w as [w IH] using lt_wf_ind. intros s Ew.
  rewrite advanceTo_eq.
  destruct (earliest (timers s)) as [tm|] eqn:E.
  - destruct (Z.leb_spec (due tm) target).
    + apply (IH (queueWeight (timers (fire tm s)))); auto.
      subst w. apply fire_decreases. now apply earliest_In.
    + simpl. apply Forall_forall. intros u Hu.
      pose proof (earliest_least _ _ E u Hu). lia.
  - apply earliest_None in E. simpl. rewrite E. constructor.
Qed.

Lemma now_advanceTo (target : Z) (s : State) : now (advanceTo target s) = target.
Proof. reflexivity. Qed.

Lemma fire_setNow (tm : Timer) (x : Z) (s : State) :
  now s <= due tm -> x <= due tm -> fire tm (setNow x s) = fire tm s.
Proof.
  intros H1 H2. unfold fire, setNow, setTimers. simpl.
  rewrite !Z.max_r by assumption. reflexivity.
Qed.

Lemma now_fire (tm : Timer) (s : State) :
  now (fire tm s) = Z.max (now s) (due tm).
Proof. unfold fire, exec. destruct (cb tm); reflexivity. Qed.

(** Letting the clock run to [t1] and then to [t2] is letting it run to
    [t2]. *)
Lemma advanceTo_advanceTo (t1 t2 : Z) (s : State) :
  now s <= t1 <= t2 ->
  advanceTo t2 (advanceTo t1 s) = advanceTo t2 s.
Proof.
  remember (queueWeight (timers s)) as w eqn:Ew.
  revert s Ew. induction w as [w IH] using lt_wf_ind. intros s Ew Ht.
  rewrite (advanceTo_eq t1 s), (advanceTo_eq t2 s).
  destruct (earliest (timers s)) as [tm|] eqn:E.
  - destruct (Z.leb_spec (due tm) t1).
    + destruct (Z.leb_spec (due tm) t2); [|lia].
      apply (IH (queueWeight (timers (fire tm s)))); auto.
      * subst w. apply fire_decreases. now apply earliest_In.
      * rewrite now_fire. lia.
    + rewrite advanceTo_eq. simpl. rewrite E.
      destruct (Z.leb_spec (due tm) t2); [|reflexivity].
      rewrite fire_setNow by lia. reflexivity.
  - rewrite advanceTo_eq. simpl. rewrite E. reflexivity.
Qed.

Lemma advance_advance (d1 d2 : Z) (s : State) :
  0 <= d1 -> 0 <= d2 ->
  advance d2 (advance d1 s) = advance (d1 + d2) s.
Proof.
  intros H1 H2. unfold advance. rewrite now_advanceTo.
  rewrite advanceTo_advanceTo by lia. f_equal. lia.
Qed.

(** ** The jump sequence in isolation *)

Arguments advanceTo : simpl never.

(** One turn of the timer loop on a queue that is known. *)
Ltac loop_fires :=
  rewrite advanceTo_eq; unfold fire, exec; simpl;
  rewrite ?Z.eqb_refl; simpl;
  match goal with
  | |- context [?a <=? ?b] =>
      destruct (Z.leb_spec a b); [|lia]
  end;
  rewrite ?Z.max_r by lia.

Ltac loop_rests :=
  rewrite advanceTo_eq; simpl;
  try match goal with
  | |- context [?a <=? ?b] =>
      destruct (Z.leb_spec a b); [lia|]
  end;
  unfold setNow; simpl.

Section JumpAlone.

Variables (sp : Q) (sc : SceneId) (ij fl : bool) (tr : option Z).
Variables (sx sy nw ni : Z).
Variable target : SceneId.

(** Any state with no timer pending. *)
Local Abbreviation s := (mkState sp sc ij fl tr sx sy nw [] ni).

Lemma jump_start :
  exec (handleJump target) s =
  mkState 12%Q sc true fl tr sx sy nw
    [mkTimer ni (nw + 1000) (JumpFlash target)] (ni + 1).
Proof. reflexivity. Qed.

Lemma jump_before_flash (d : Z) :
  0 <= d < 1000 ->
  advance d (exec (handleJump target) s) =
  mkState 12%Q sc true fl tr sx sy (nw + d)
    [mkTimer ni (nw + 1000) (JumpFlash target)] (ni + 1).
Proof.
  intros Hd. unfold advance. simpl. loop_rests. reflexivity.
Qed.

Lemma jump_flashing (d : Z) :
  1000 <= d < 1200 ->
  advance d (exec (handleJump target) s) =
  mkState 12%Q sc true true tr sx sy (nw + d)
    [mkTimer (ni + 1) (nw + 1000 + 200) (JumpSwap target)] (ni + 1 + 1).
Proof.
  intros Hd. unfold advance. simpl. loop_fires. loop_rests. reflexivity.
Qed.

Lemma jump_swapped (d : Z) :
  1200 <= d < 2000 ->
  advance d (exec (handleJump target) s) =
  mkState (restingSpeed target) target false true tr 0 0 (nw + d)
    [mkTimer (ni + 1 + 1) (nw + 1000 + 200 + 800) FlashOff] (ni + 1 + 1 + 1).
Proof.
  intros Hd. unfold advance. simpl. loop_fires. loop_fires. loop_rests.
  reflexivity.
Qed.

Lemma jump_settled (d : Z) :
  2000 <= d ->
  advance d (exec (handleJump target) s) =
  mkState (restingSpeed target) target false false tr 0 0 (nw + d)
    [] (ni + 1 + 1 + 1).
Proof.
  intros Hd. unfold advance. simpl. loop_fires. loop_fires. loop_fires.
  loop_rests. reflexivity.
Qed.

End JumpAlone.

Lemma restingSpeed_cases (scene : SceneId) :
  restingSpeed scene = if SceneId_eqb scene travel then 1%Q else 0.2%Q.
Proof. reflexivity. Qed.

Lemma State_eta (s : State) :
  s = mkState (speed s) (currentScene s) (isJumping s) (flash s) (timerRef s)
        (scrollX s) (scrollY s) (now s) (timers s) (nextId s).
Proof. destruct s; reflexivity. Qed.

(** ** Charging from rest *)

Section ChargeFromRest.

Variables (sp : Q) (ij fl : bool) (tr : option Z).
Variables (sx sy nw ni : Z).

(** The travel scene with no timer pending. *)
Local Abbreviation s := (mkState sp travel ij fl tr sx sy nw [] ni).

Lemma charge_start :
  exec startWarp s =
  mkState 8%Q travel ij fl (Some ni) sx sy nw
    [mkTimer ni (nw + 5000) WarpFire] (ni + 1).
Proof. reflexivity. Qed.

Lemma charge_holding (d : Z) :
  0 <= d < 5000 ->
  advance d (exec startWarp s) =
  mkState 8%Q travel ij fl (Some ni) sx sy (nw + d)
    [mkTimer ni (nw + 5000) WarpFire] (ni + 1).
Proof.
  intros Hd. unfold advance. simpl. loop_rests. reflexivity.
Qed.

Lemma charge_fired (d : Z) :
  5000 <= d < 6000 ->
  advance d (exec startWarp s) =
  mkState 12%Q travel true fl (Some ni) sx sy (nw + d)
    [mkTimer (ni + 1) (nw + 5000 + 1000) (JumpFlash blackhole)] (ni + 1 + 1).
Proof.
  intros Hd. unfold advance. simpl. loop_fires. loop_rests. reflexivity.
Qed.


Lemma charge_swapped (d : Z) :
  6200 <= d < 7000 ->
  advance d (exec startWarp s) =
  mkState 0.2%Q blackhole false true (Some ni) 0 0 (nw + d)
    [mkTimer (ni + 1 + 1 + 1) (nw + 5000 + 1000 + 200 + 800) FlashOff]
    (ni + 1 + 1 + 1 + 1).
Proof.
  intros Hd. unfold advance. simpl. loop_fires. loop_fires. loop_fires.
  loop_rests. reflexivity.
Qed.

Lemma charge_settled (d : Z) :
  7000 <= d ->
  advance d (exec startWarp s) =
  mkState 0.2%Q blackhole false false (Some ni) 0 0 (nw + d)
    [] (ni + 1 + 1 + 1 + 1).
Proof.
  intros Hd. unfold advance. simpl. loop_fires. loop_fires. loop_fires.
  loop_fires. loop_rests. reflexivity.
Qed.

(** Releasing during the hold. *)
Lemma release_holding (d : Z) :
  0 <= d < 5000 ->
  exec onMouseUp (advance d (exec startWarp s)) =
  mkState 1%Q travel ij fl (Some ni) sx sy (nw + d) [] (ni + 1).
Proof.
  intros Hd. rewrite charge_holding by assumption.
  unfold exec; simpl. rewrite Z.eqb_refl. reflexivity.
Qed.



End ChargeFromRest.

Lemma resting_travel_shape (s : State) :
  Resting s -> currentScene s = travel ->
  s = mkState 1%Q travel false false (timerRef s) (scrollX s) (scrollY s)
        (now s) [] (nextId s).
Proof.
  intros (Ht & Hj & Hf & Hs) Hc. rewrite Hc in Hs.
  rewrite (State_eta s) at 1. rewrite Ht, Hj, Hf, Hs, Hc. reflexivity.
Qed.

(** C2. From the resting travel scene, pressing the charge button sets
    [speed] to 8 and registers exactly one timer, due in 5000 ms; held and
    never released, the timer fires at 5000 ms and starts the jump
    ([isJumping] true, [speed] 12, the jump's first timer pending), and from
    6200 ms on the scene is blackhole at speed 0.2, with nothing left pending
    from 7000 ms on. *)
Theorem hold_charge_jumps_to_blackhole (s : State) :
  Resting s -> currentScene s = travel ->
  let s1 := exec startWarp s in
  dispatch MouseDown s = Some s1 /\
  speed s1 = 8%Q /\
  timers s1 = [mkTimer (nextId s) (now s + 5000) WarpFire] /\
  timerRef s1 = Some (nextId s) /\
  (forall d, 0 <= d < 5000 ->
     let s2 := advance d s1 in
     timers s2 = timers s1 /\ speed s2 = 8%Q /\
     isJumping s2 = false /\ currentScene s2 = travel) /\
  (forall d, 5000 <= d < 6000 ->
     let s2 := advance d s1 in
     isJumping s2 = true /\ speed s2 = 12%Q /\ currentScene s2 = travel /\
     timers s2 =
       [mkTimer (nextId s + 1) (now s + 5000 + 1000) (JumpFlash blackhole)]) /\
  (forall d, 6200 <= d ->
     let s2 := advance d s1 in
     currentScene s2 = blackhole /\ speed s2 = 0.2%Q /\ isJumping s2 = false) /\
  (forall d, 7000 <= d ->
     let s2 := advance d s1 in flash s2 = false /\ timers s2 = []).
Proof.
  intros Hr Hc. rewrite (resting_travel_shape s Hr Hc). cbv zeta.
  split; [reflexivity|].
  split; [reflexivity|].
  split; [reflexivity|].
  split; [reflexivity|].
  split; [|split; [|split]].
  - intros d Hd. rewrite charge_holding by assumption. simpl. auto.
  - intros d Hd. rewrite charge_fired by assumption. simpl. auto.
  - intros d Hd. destruct (Z.lt_ge_cases d 7000).
    + rewrite charge_swapped by lia. simpl. auto.
    + rewrite charge_settled by lia. simpl. auto.
  - intros d Hd. rewrite charge_settled by lia. simpl. auto.
Qed.

Lemma initialState_resting : Resting initialState.
Proof. repeat split. Defined.

Lemma hold_charge_jumps_to_blackhole_witness :
  speed (exec startWarp initialState) = 8%Q /\
  timers (exec startWarp initialState) = [mkTimer 1 5000 WarpFire] /\
  isJumping (advance 5000 (exec startWarp initialState)) = true /\
  currentScene (advance 6200 (exec startWarp initialState)) = blackhole /\
  speed (advance 6200 (exec startWarp initialState)) = 0.2%Q.
Proof.
  pose proof (hold_charge_jumps_to_blackhole initialState
                initialState_resting eq_refl)
    as (_ & H8 & Ht & _ & _ & Hf & Hs & _).
  split; [exact H8|].
  split; [exact Ht|].
  split; [apply (Hf 5000); lia|].
  split; [apply (Hs 6200); lia|apply (Hs 6200); lia].
Defined.



(** After the swap the charge button is no longer rendered, so a release
    cannot reach [onMouseUp] at all. *)
Lemma release_after_swap_unmounted (s : State) (d : Z) :
  Resting s -> currentScene s = travel -> 6200 <= d ->
  dispatch MouseUp (advance d (exec startWarp s)) = None.
Proof.
  intros Hr Hc Hd. rewrite (resting_travel_shape s Hr Hc).
  destruct (Z.lt_ge_cases d 7000);
    [rewrite charge_swapped by lia|rewrite charge_settled by lia];
    reflexivity.
Qed.


(** ** What every reachable state satisfies *)

Lemma In_dropTimer (i : Z) (l : list Timer) (u : Timer) :
  In u (dropTimer i l) <-> In u l /\ tid u <> i.
Proof.
  unfold dropTimer. rewrite filter_In.
  destruct (Z.eqb_spec (tid u) i); simpl; intuition congruence.
Qed.

Lemma NoDup_tid_inj (l : list Timer) (x y : Timer) :
  NoDup (map tid l) -> In x l -> In y l -> tid x = tid y -> x = y.
Proof.
  induction l as [|t l IH]; simpl; [contradiction|].
  intros Hnd Hx Hy E. inversion Hnd as [|? ? Hnotin Hnd']; subst.
  destruct Hx as [->|Hx], Hy as [->|Hy]; auto.
  - exfalso. apply Hnotin. rewrite E. now apply in_map.
  - exfalso. apply Hnotin. rewrite <- E. now apply in_map.
Qed.

Lemma WfQueue_push (l : list Timer) (n d : Z) (c : Callback) :
  WfQueue l n -> WfQueue (l ++ [mkTimer n d c]) (n + 1).
Proof.
  intros [Hnd Hlt]. split.
  - rewrite map_app. simpl.
    apply NoDup_app; [assumption|repeat constructor; intros []|].
    intros a Ha [<-|[]]. apply in_map_iff in Ha as (u & Eu & Hu).
    rewrite Forall_forall in Hlt. specialize (Hlt u Hu). simpl in *. lia.
  - apply Forall_app. split.
    + eapply Forall_impl; [|exact Hlt]. simpl. intros; lia.
    + repeat constructor. simpl. lia.
Qed.

Lemma WfQueue_drop (i : Z) (l : list Timer) (n : Z) :
  WfQueue l n -> WfQueue (dropTimer i l) n.
Proof.
  intros [Hnd Hlt]. split.
  - clear Hlt. induction l as [|t l IH]; simpl; [constructor|].
    inversion Hnd as [|? ? Hnotin Hnd']; subst.
    destruct (tid t =? i); simpl; auto.
    constructor; auto. intros Hin. apply Hnotin.
    apply in_map_iff in Hin as (u & Eu & Hu).
    apply In_dropTimer in Hu as [Hu _]. rewrite <- Eu. now apply in_map.
  - rewrite Forall_forall in *. intros u Hu.
    apply In_dropTimer in Hu as [Hu _]. auto.
Qed.

Lemma pending_push (l : list Timer) (n d : Z) (c : Callback) :
  c <> FlashOff -> pendingTransition (l ++ [mkTimer n d c]).
Proof.
  intros Hc. exists (mkTimer n d c). split; [|exact Hc].
  apply in_or_app. right. now left.
Qed.

Lemma pending_drop_FlashOff (l : list Timer) (n : Z) (tm : Timer) :
  WfQueue l n -> In tm l -> cb tm = FlashOff ->
  pendingTransition l -> pendingTransition (dropTimer (tid tm) l).
Proof.
  intros [Hnd _] Hin Hcb (u & Hu & Hcu).
  exists u. split; [|exact Hcu].
  apply In_dropTimer. split; [exact Hu|].
  intros E. apply Hcu. rewrite (NoDup_tid_inj l u tm Hnd Hu Hin E). exact Hcb.
Qed.

Lemma assignedSpeed_resting (scene : SceneId) :
  assignedSpeed (restingSpeed scene).
Proof. unfold assignedSpeed, restingSpeed. destruct scene; simpl; auto. Qed.

Lemma assignedSpeed_nonneg (q : Q) : assignedSpeed q -> (0 <= q)%Q.
Proof. intros [-> | [-> | [-> | ->]]]; discriminate. Qed.

Lemma Inv_initialState : Inv initialState.
Proof.
  split; [split; constructor|].
  split; [left|left]; reflexivity.
Qed.

Lemma Inv_setNow (s : State) (t : Z) : Inv s -> Inv (setNow t s).
Proof. intros H. exact H. Qed.

Lemma Inv_scrollTo (x y : Z) (s : State) : Inv s -> Inv (exec (scrollTo x y) s).
Proof. intros H. exact H. Qed.

Lemma Inv_handleJump (target : SceneId) (s : State) :
  Inv s -> Inv (exec (handleJump target) s).
Proof.
  intros (Hwf & _ & _). unfold Inv, exec; simpl.
  split; [now apply WfQueue_push|].
  split; [unfold assignedSpeed; auto|].
  right. apply pending_push. discriminate.
Qed.

Lemma Inv_startWarp (s : State) : Inv s -> Inv (exec startWarp s).
Proof.
  intros (Hwf & _ & _). unfold Inv, exec; simpl.
  split; [now apply WfQueue_push|].
  split; [unfold assignedSpeed; auto|].
  right. apply pending_push. discriminate.
Qed.

Lemma Inv_onMouseUp (s : State) :
  currentScene s = travel -> Inv s -> Inv (exec onMouseUp s).
Proof.
  intros Hc (Hwf & _ & _). unfold Inv, exec, onMouseUp, bind, getTimerRef.
  destruct (timerRef s) as [i|]; simpl; rewrite Hc.
  - split; [now apply WfQueue_drop|]. split; [unfold assignedSpeed|]; auto.
  - split; [assumption|]. split; [unfold assignedSpeed|]; auto.
Qed.

Lemma Inv_fire (s : State) (tm : Timer) :
  In tm (timers s) -> Inv s -> Inv (fire tm s).
Proof.
  intros Hin (Hwf & Hsp & Hrest).
  pose proof (WfQueue_drop (tid tm) _ _ Hwf) as Hwf'.
  unfold Inv, fire, exec. destruct (cb tm) eqn:Ecb; simpl.
  - split; [now apply WfQueue_push|]. split; [assumption|].
    right. apply pending_push. discriminate.
  - split; [now apply WfQueue_push|].
    split; [apply assignedSpeed_resting|]. now left.
  - split; [assumption|]. split; [assumption|].
    destruct Hrest as [Hr|Hp]; [now left|right].
    now apply (pending_drop_FlashOff _ (nextId s)).
  - split; [now apply WfQueue_push|]. split; [unfold assignedSpeed; auto|].
    right. apply pending_push. discriminate.
Qed.

Lemma Inv_advance (d : Z) (s : State) : Inv s -> Inv (advance d s).
Proof.
  unfold advance. apply advanceTo_ind.
  - intros; now apply Inv_setNow.
  - intros s' tm Hin _ Hi. now apply Inv_fire.
Qed.

Lemma Inv_dispatch (e : Event) (s s' : State) :
  Inv s -> dispatch e s = Some s' -> Inv s'.
Proof.
  intros Hi. destruct e; simpl.
  - destruct (SceneId_eqb_spec (currentScene s) travel); [|discriminate].
    intros [= <-]. now apply Inv_startWarp.
  - destruct (SceneId_eqb_spec (currentScene s) travel); [|discriminate].
    intros [= <-]. now apply Inv_onMouseUp.
  - destruct (nextButton (currentScene s)); [|discriminate].
    intros [= <-]. now apply Inv_handleJump.
  - intros [= <-]. now apply Inv_scrollTo.
  - destruct (0 <=? d); [|discriminate].
    intros [= <-]. now apply Inv_advance.
Qed.

Lemma Inv_run (evs : list Event) (s s' : State) :
  Inv s -> run evs s = Some s' -> Inv s'.
Proof.
  revert s; induction evs as [|e evs IH]; simpl; intros s Hi.
  - now intros [= <-].
  - destruct (dispatch e s) as [s1|] eqn:E; [|discriminate].
    apply IH. exact (Inv_dispatch e s s1 Hi E).
Qed.

Lemma swap_arrives (s : State) (tm : Timer) (n : SceneId) :
  cb tm = JumpSwap n ->
  currentScene (fire tm s) = n /\ speed (fire tm s) = restingSpeed n /\
  isJumping (fire tm s) = false.
Proof. intros E. unfold fire, exec. rewrite E. simpl. auto. Qed.

(** C7. In every state reachable from [initialState] by user events and the
    passage of time, [speed] is one of the assigned values 1, 8, 12, 0.2 and
    so is not negative; whenever no timer is pending, [speed] is the resting
    speed of the current scene; and the step that completes a transition
    (the scene swap) leaves [speed] at the resting speed of the scene it
    arrives in: 1 for travel, 0.2 for every other scene. *)
Theorem speed_invariant (s : State) :
  Reachable s ->
  (0 <= speed s)%Q /\
  (speed s = 1 \/ speed s = 8 \/ speed s = 12 \/ speed s = 0.2)%Q /\
  (timers s = [] -> speed s = restingSpeed (currentScene s)) /\
  (forall tm n, In tm (timers s) -> cb tm = JumpSwap n ->
     currentScene (fire tm s) = n /\
     speed (fire tm s) = (if SceneId_eqb n travel then 1 else 0.2)%Q).
Proof.
  intros [evs Hrun].
  pose proof (Inv_run evs _ _ Inv_initialState Hrun) as (_ & Hsp & Hrest).
  split; [now apply assignedSpeed_nonneg|].
  split; [exact Hsp|].
  split.
  - intros Ht. destruct Hrest as [Hr|(u & Hu & _)]; [exact Hr|].
    rewrite Ht in Hu. contradiction.
  - intros tm n _ Ecb. destruct (swap_arrives s tm n Ecb) as (H1 & H2 & _).
    split; assumption.
Qed.

Lemma reachable_mid_swap :
  Reachable (mkState 12%Q travel true true (Some 1) 0 0 6100
               [mkTimer 3 6200 (JumpSwap blackhole)] 4).
Proof. exists [MouseDown; Tick 6100]. reflexivity. Defined.

Lemma speed_invariant_witness :
  let s := mkState 12%Q travel true true (Some 1) 0 0 6100
             [mkTimer 3 6200 (JumpSwap blackhole)] 4 in
  (0 <= speed s)%Q /\
  speed (fire (mkTimer 3 6200 (JumpSwap blackhole)) s) = 0.2%Q.
Proof.
  pose proof (speed_invariant _ reachable_mid_swap) as (H0 & _ & _ & Hswap).
  split; [exact H0|].
  apply (Hswap (mkTimer 3 6200 (JumpSwap blackhole)) blackhole);
    [now left | reflexivity].
Defined.

(** ** Releasing the charge *)

Lemma WfQueue_fire (s : State) (tm : Timer) :
  WfQueue (timers s) (nextId s) ->
  WfQueue (timers (fire tm s)) (nextId (fire tm s)).
Proof.
  intros Hwf. apply (WfQueue_drop (tid tm)) in Hwf.
  unfold fire, exec. destruct (cb tm); simpl;
    solve [assumption | now apply WfQueue_push].
Qed.

Lemma timerRef_fire (s : State) (tm : Timer) :
  timerRef (fire tm s) = timerRef s.
Proof. unfold fire, exec. destruct (cb tm); reflexivity. Qed.

(** While the clock runs short of a pending timer's due time, that timer
    stays in the queue and the ref keeps pointing at it. *)
Lemma pending_timer_survives (w : Timer) (target : Z) (s : State) :
  target < due w ->
  WfQueue (timers s) (nextId s) /\ In w (timers s) /\
    timerRef s = Some (tid w) ->
  WfQueue (timers (advanceTo target s)) (nextId (advanceTo target s)) /\
    In w (timers (advanceTo target s)) /\
    timerRef (advanceTo target s) = Some (tid w).
Proof.
  intros Hw.
  apply (advanceTo_ind
           (fun s => WfQueue (timers s) (nextId s) /\ In w (timers s) /\
                     timerRef s = Some (tid w))).
  - intros s' t H. exact H.
  - intros s' tm Hin Hdue (Hwf & Hinw & Href).
    split; [now apply WfQueue_fire|].
    split; [|now rewrite timerRef_fire].
    rewrite fire_timers. apply in_or_app. left.
    apply In_dropTimer. split; [exact Hinw|].
    intros E. destruct Hwf as [Hnd _].
    rewrite (NoDup_tid_inj _ w tm Hnd Hinw Hin E) in Hw. lia.
Qed.

(** C3. A charge started in the travel scene of any reachable state, and
    released before its 5000 ms have passed: up to the release the charge's
    timer is pending and [timerRef] holds its handle; the release removes
    exactly that timer from the queue and registers none, sets [speed] to 1,
    and leaves the scene, [isJumping] and [flash] as they were.  Started
    from rest, the release therefore finds the scene still travel and the
    button mounted, and leaves the state at rest again: no timer pending,
    [isJumping] and [flash] false, [speed] 1, and nothing but the clock
    changes ever after. *)
Theorem release_before_fire_cancels (s : State) (d : Z) :
  Reachable s -> currentScene s = travel -> 0 <= d < 5000 ->
  let w := mkTimer (nextId s) (now s + 5000) WarpFire in
  exists s2,
    run [MouseDown; Tick d] s = Some s2 /\
    In w (timers s2) /\ timerRef s2 = Some (tid w) /\
    (forall s3, dispatch MouseUp s2 = Some s3 ->
       timers s3 = dropTimer (tid w) (timers s2) /\
       ~ In w (timers s3) /\
       currentScene s3 = currentScene s2 /\
       speed s3 = 1%Q /\
       isJumping s3 = isJumping s2 /\ flash s3 = flash s2) /\
    (Resting s ->
       exists s3,
         dispatch MouseUp s2 = Some s3 /\
         timers s2 = [w] /\ timers s3 = [] /\
         currentScene s3 = currentScene s /\
         speed s3 = 1%Q /\ isJumping s3 = false /\ flash s3 = false /\
         Resting s3 /\
         (forall d', 0 <= d' -> advance d' s3 = setNow (now s3 + d') s3)).
Proof.
  intros [evs Hrun] Hc Hd. cbv zeta.
  pose proof (Inv_run evs _ _ Inv_initialState Hrun) as (Hwf & _).
  exists (advance d (exec startWarp s)).
  split.
  { cbn [run dispatch]. rewrite Hc. simpl.
    destruct (Z.leb_spec 0 d); [reflexivity|lia]. }
  destruct (pending_timer_survives
              (mkTimer (nextId s) (now s + 5000) WarpFire)
              (now (exec startWarp s) + d) (exec startWarp s))
    as (_ & Hin & Href).
  { simpl. lia. }
  { unfold exec; simpl. split; [now apply WfQueue_push|].
    split; [|reflexivity]. apply in_or_app. right. now left. }
  fold (advance d (exec startWarp s)) in Hin, Href.
  split; [exact Hin|]. split; [exact Href|].
  split.
  - set (s2 := advance d (exec startWarp s)) in *.
    intros s3. unfold dispatch.
    destruct (SceneId_eqb (currentScene s2) travel); [|discriminate].
    intros [= <-].
    unfold exec, onMouseUp, bind, getTimerRef. rewrite Href. simpl.
    split; [reflexivity|].
    split; [|auto].
    intros Hin'. apply In_dropTimer in Hin' as [_ Hne]. now apply Hne.
  - intros Hr. clear Hin Href.
    exists (exec onMouseUp (advance d (exec startWarp s))).
    rewrite (resting_travel_shape s Hr Hc).
    rewrite release_holding, charge_holding by assumption.
    repeat split.
    unfold dispatch, exec; simpl. rewrite Z.eqb_refl. reflexivity.
Qed.

Lemma reachable_initialState : Reachable initialState.
Proof. exists []. reflexivity. Defined.

Lemma release_before_fire_cancels_witness :
  exists s2 s3,
    run [MouseDown; Tick 3000] initialState = Some s2 /\
    dispatch MouseUp s2 = Some s3 /\
    timers s2 = [mkTimer 1 5000 WarpFire] /\
    timers s3 = [] /\
    currentScene s3 = travel /\
    speed s3 = 1%Q /\ isJumping s3 = false /\ flash s3 = false.
Proof.
  destruct (release_before_fire_cancels initialState 3000
              reachable_initialState eq_refl)
    as (s2 & Hrun & _ & _ & _ & Hrest); [lia|].
  destruct (Hrest initialState_resting)
    as (s3 & Hup & Ht2 & Ht3 & Hsc & Hsp & Hj & Hf & _).
  exists s2, s3. auto 10.
Defined.

(** ** The camera controller *)

Local Open Scope Q_scope.

Lemma jitterCond_iff (speed : Q) (isJumping : bool) :
  jitterCond speed isJumping = true <-> 1 < speed /\ isJumping = false.
Proof.
  unfold jitterCond. rewrite andb_true_iff, !negb_true_iff.
  split; intros [H1 H2]; split; try assumption.
  - apply Qnot_le_lt. intros Hle. apply Qle_bool_iff in Hle. congruence.
  - destruct (Qle_bool speed 1) eqn:E; [|reflexivity].
    apply Qle_bool_iff in E. lra.
Qed.

Lemma jitter_step_range (speed r : Q) :
  1 < speed -> 0 <= r < 1 ->
  inHalfOpenRange speed ((r - 0.5) * (speed * 0.015)).
Proof.
  intros Hs [Hr0 Hr1]. unfold inHalfOpenRange, jitterHalfWidth.
  assert (Hk : 0 < speed * 0.015) by lra.
  split.
  - assert (0 <= r * (speed * 0.015)) by (apply Qmult_le_0_compat; lra).
    lra.
  - assert (0 < (1 - r) * (speed * 0.015)) by (apply Qmult_lt_0_compat; lra).
    lra.
Qed.

Section MathRandom.

Variable g : Rng.

(** [Math.random()] returns a number in the half-open interval from 0
    (inclusive) to 1 (exclusive). *)
Hypothesis draws_range : forall n, 0 <= draws g n < 1.

Variables (speed : Q) (isJumping : bool) (c : Camera).

Lemma frame_jitters :
  jitterCond speed isJumping = true ->
  let st := cameraFrame speed isJumping (g, c) in
  cursor (fst st) = S (S (cursor g)) /\
  posX (snd st) == posX c + (draws g (cursor g) - 0.5) * (speed * 0.015) /\
  posY (snd st) == posY c + (draws g (S (cursor g)) - 0.5) * (speed * 0.015) /\
  posZ (snd st) = posZ c /\
  inHalfOpenRange speed (posX (snd st) - posX c) /\
  inHalfOpenRange speed (posY (snd st) - posY c).
Proof.
  intros Hc. pose proof (proj1 (jitterCond_iff _ _) Hc) as [Hs _].
  unfold cameraFrame. rewrite Hc. simpl.
  split; [reflexivity|].
  split; [reflexivity|].
  split; [reflexivity|].
  split; [reflexivity|].
  split.
  - pose proof (jitter_step_range speed _ Hs (draws_range (cursor g))) as [H1 H2].
    unfold inHalfOpenRange in *. split; lra.
  - pose proof (jitter_step_range speed _ Hs (draws_range (S (cursor g)))) as [H1 H2].
    unfold inHalfOpenRange in *. split; lra.
Qed.

Lemma frame_still :
  jitterCond speed isJumping = false ->
  let st := cameraFrame speed isJumping (g, c) in
  fst st = g /\
  posX (snd st) = posX c /\ posY (snd st) = posY c /\ posZ (snd st) = posZ c.
Proof.
  intros Hc. unfold cameraFrame. rewrite Hc. simpl. auto.
Qed.

End MathRandom.


Lemma half_draws_range : forall n : nat, 0 <= (fun _ : nat => 0.25) n < 1.
Proof. intros n. split; [discriminate|reflexivity]. Defined.



(** *** Field of view *)

Lemma fov_frame (speed : Q) (isJumping : bool) (st : Rng * Camera) :
  fov (snd (cameraFrame speed isJumping st)) =
  lerp (fov (snd st)) (targetFOV isJumping) 0.05.
Proof.
  destruct st as [g c]. unfold cameraFrame.
  destruct (jitterCond speed isJumping); reflexivity.
Qed.

Lemma projFov_frame (speed : Q) (isJumping : bool) (st : Rng * Camera) :
  projFov (snd (cameraFrame speed isJumping st)) =
  fov (snd (cameraFrame speed isJumping st)).
Proof.
  destruct st as [g c]. unfold cameraFrame.
  destruct (jitterCond speed isJumping); reflexivity.
Qed.



(** *** The same line in doubles *)

Lemma fovFrames64_succ (k : nat) (j : bool) (x : float) :
  fovFrames64 (S k) j x = fovFrame64 j (fovFrames64 k j x).
Proof.
  revert x. induction k as [|k IH]; intros x; [reflexivity|].
  change (fovFrames64 (S (S k)) j x) with (fovFrames64 (S k) j (fovFrame64 j x)).
  rewrite IH. reflexivity.
Qed.









Local Close Scope Q_scope.

(** ** Scene-dependent props *)

(** C8, as the code has it.  Rotation-drag is enabled if and only if the
    scene is not travel and the viewport is strictly wider than 768 pixels;
    zoom is enabled if and only if the scene is contact; panning is disabled
    in every scene.  For every width other than 768 this is the claim's
    "not narrow", narrow being [innerWidth < 768]. *)
Theorem orbit_controls_props (scene : SceneId) (innerWidth : Z) :
  let p := orbitControls scene innerWidth in
  (enableRotate p = true <-> scene <> travel /\ 768 < innerWidth) /\
  (enableZoom p = true <-> scene = contact) /\
  enablePan p = false.
Proof.
  cbv zeta. unfold orbitControls. simpl.
  split; [|split; [|reflexivity]].
  - rewrite andb_true_iff, negb_true_iff, Z.ltb_lt.
    destruct (SceneId_eqb_spec scene travel); intuition congruence.
  - destruct (SceneId_eqb_spec scene contact); intuition congruence.
Qed.

Lemma orbit_rotate_off_768 (scene : SceneId) (innerWidth : Z) :
  innerWidth <> 768 ->
  (enableRotate (orbitControls scene innerWidth) = true <->
   scene <> travel /\ isMobile innerWidth = false).
Proof.
  intros Hw. unfold orbitControls, isMobile. simpl.
  rewrite andb_true_iff, negb_true_iff, Z.ltb_lt, Z.ltb_ge.
  destruct (SceneId_eqb_spec scene travel); intuition (congruence || lia).
Qed.

(** C8 as stated fails at a viewport exactly 768 pixels wide: it is not
    narrow, the scene is not travel, yet rotation is disabled. *)
Lemma orbit_rotate_at_768 :
  isMobile 768 = false /\
  enableRotate (orbitControls blackhole 768) = false /\
  ~ (enableRotate (orbitControls blackhole 768) = true <->
     blackhole <> travel /\ isMobile 768 = false).
Proof.
  split; [reflexivity|]. split; [reflexivity|].
  intros [_ H]. assert (E : false = true); [|discriminate E].
  apply H. split; [discriminate|reflexivity].
Qed.

(** C9. At application start the scene is travel, [speed] is 1, [isJumping]
    and [flash] are false, [timerRef.current] is [null] and no timer is
    pending; this is the state every run starts from. *)
Theorem initial_state :
  currentScene initialState = travel /\
  speed initialState = 1%Q /\
  isJumping initialState = false /\
  flash initialState = false /\
  timerRef initialState = None /\
  timers initialState = [] /\
  run [] initialState = Some initialState /\
  Reachable initialState.
Proof.
  repeat (split; [reflexivity|]). exists []. reflexivity.
Qed.

Lemma styleProp_other (k : string) (a b : SceneId) :
  k <> "overflowY"%string ->
  styleProp k (rootStyle a) = styleProp k (rootStyle b).
Proof.
  intros Hk. unfold rootStyle. simpl.
  repeat match goal with
  | |- context [String.eqb k ?x] =>
      destruct (String.eqb_spec k x); [try reflexivity; contradiction|]
  end.
  reflexivity.
Qed.

(** C10. The root container's [overflowY] is "hidden" exactly when the
    scene is travel and "auto" in every other scene, and no other property
    of its style depends on the scene. *)
Theorem root_overflow (scene : SceneId) :
  styleProp "overflowY" (rootStyle scene) =
    Some (if SceneId_eqb scene travel then "hidden" else "auto")%string /\
  (styleProp "overflowY" (rootStyle scene) = Some "hidden"%string <->
   scene = travel) /\
  (scene <> travel ->
   styleProp "overflowY" (rootStyle scene) = Some "auto"%string) /\
  (forall other,
     withoutProp "overflowY" (rootStyle scene) =
     withoutProp "overflowY" (rootStyle other)) /\
  (forall other k, k <> "overflowY"%string ->
     styleProp k (rootStyle scene) = styleProp k (rootStyle other)).
Proof.
  split; [reflexivity|].
  split; [|split; [|split]].
  - destruct scene; simpl; split; congruence.
  - destruct scene; simpl; congruence.
  - intros other. reflexivity.
  - intros other k Hk. now apply styleProp_other.
Qed.

Lemma root_overflow_witness :
  styleProp "overflowY" (rootStyle earth) = Some "auto"%string /\
  styleProp "color" (rootStyle earth) = styleProp "color" (rootStyle travel).
Proof.
  pose proof (root_overflow earth) as (_ & _ & Hauto & _ & Hother).
  split.
  - apply Hauto. discriminate.
  - apply (Hother travel "color"%string). discriminate.
Defined.

(** * Further properties of the transition machine *)

(** ** Coherence of flags, ref and queue *)

Lemma survives_fire (s : State) (tm u : Timer) :
  WfQueue (timers s) (nextId s) ->
  In tm (timers s) -> In u (timers s) -> cb u <> cb tm ->
  In u (timers (fire tm s)).
Proof.
  intros [Hnd _] Htm Hu Hne. rewrite fire_timers.
  apply in_or_app. left. apply In_dropTimer. split; [exact Hu|].
  intros E. apply Hne. now rewrite (NoDup_tid_inj _ u tm Hnd Hu Htm E).
Qed.

Lemma In_timers_fire (s : State) (tm u : Timer) :
  In u (timers (fire tm s)) ->
  In u (timers s) \/ tid u = nextId s.
Proof.
  rewrite fire_timers. intros H. apply in_app_or in H as [H|H].
  - left. now apply In_dropTimer in H as [H _].
  - right. destruct (cb tm); simpl in H;
      try (destruct H as [<-|[]]; reflexivity); contradiction.
Qed.

Lemma nextId_fire (s : State) (tm : Timer) : nextId s <= nextId (fire tm s).
Proof. unfold fire, exec. destruct (cb tm); simpl; lia. Qed.

Lemma RefIsCharge_fire (s : State) (tm : Timer) :
  RefIsCharge s -> RefIsCharge (fire tm s).
Proof.
  intros Href i Hi. rewrite timerRef_fire in Hi.
  destruct (Href i Hi) as [Hlt Hcb].
  split; [pose proof (nextId_fire s tm); lia|].
  intros u Hu E. apply In_timers_fire in Hu as [Hu|Hu]; [auto|lia].
Qed.

Lemma Coherent_fire (s : State) (tm : Timer) :
  In tm (timers s) -> Coherent s -> Coherent (fire tm s).
Proof.
  intros Hin (Hwf & Href & Hj & Hf & H12).
  split; [now apply WfQueue_fire|].
  split; [now apply RefIsCharge_fire|].
  assert (Hnew : forall c d,
            timers (fire tm s) =
              dropTimer (tid tm) (timers s) ++ [mkTimer (nextId s) d c] ->
            exists u, In u (timers (fire tm s)) /\ cb u = c).
  { intros c d E. exists (mkTimer (nextId s) d c). rewrite E.
    split; [apply in_or_app; right; now left|reflexivity]. }
  pose proof (fire_timers tm s) as Et.
  destruct (cb tm) eqn:Ecb.
  - (* JumpFlash *)
    destruct (Hnew _ _ Et) as (u & Hu & Eu).
    split; [|split].
    + intros _. exists u. rewrite Eu. auto.
    + intros _. exists u. rewrite Eu. auto.
    + unfold fire, exec. rewrite Ecb. simpl. exact H12.
  - (* JumpSwap *)
    destruct (Hnew _ _ Et) as (u & Hu & Eu).
    split; [|split].
    + unfold fire, exec. rewrite Ecb. simpl. discriminate.
    + intros _. exists u. rewrite Eu. auto.
    + unfold fire, exec. rewrite Ecb. simpl.
      unfold restingSpeed. destruct (SceneId_eqb nextScene travel); discriminate.
  - (* FlashOff *)
    split; [|split].
    + unfold fire at 1, exec. rewrite Ecb. simpl. intros H.
      destruct (Hj H) as (u & Hu & Eu). exists u. split; [|exact Eu].
      apply survives_fire; auto. rewrite Ecb. intros E. rewrite E in Eu.
      discriminate.
    + unfold fire, exec. rewrite Ecb. simpl. discriminate.
    + unfold fire, exec. rewrite Ecb. simpl. exact H12.
  - (* WarpFire *)
    destruct (Hnew _ _ Et) as (u & Hu & Eu).
    split; [|split].
    + intros _. exists u. rewrite Eu. auto.
    + unfold fire at 1, exec. rewrite Ecb. simpl. intros H.
      destruct (Hf H) as (v & Hv & Ev). exists v. split; [|exact Ev].
      apply survives_fire; auto. rewrite Ecb. intros E. rewrite E in Ev.
      discriminate.
    + unfold fire, exec. rewrite Ecb. simpl. reflexivity.
Qed.

Lemma Coherent_initialState : Coherent initialState.
Proof.
  split; [split; constructor|].
  split; [intros i; discriminate|].
  split; [discriminate|]. split; discriminate.
Qed.

Lemma Coherent_push (s : State) (c : Callback) (d : Z) (u : Timer) :
  In u (timers s) -> In u (timers s ++ [mkTimer (nextId s) d c]).
Proof. intros H. apply in_or_app. now left. Qed.

Lemma Coherent_handleJump (target : SceneId) (s : State) :
  Coherent s -> Coherent (exec (handleJump target) s).
Proof.
  intros (Hwf & Href & Hj & Hf & H12). unfold Coherent, exec; simpl.
  split; [now apply WfQueue_push|].
  split.
  { intros i Hi. destruct (Href i Hi) as [Hlt Hcb]. simpl in *.
    split; [lia|]. intros u Hu E.
    apply in_app_or in Hu as [Hu|[<-|[]]]; [auto|simpl in E; lia]. }
  split; [|split; [|reflexivity]].
  - intros _. eexists. split; [apply in_or_app; right; now left|reflexivity].
  - intros H. destruct (Hf H) as (u & Hu & Eu). exists u.
    split; [now apply Coherent_push|exact Eu].
Qed.

Lemma Coherent_startWarp (s : State) :
  Coherent s -> Coherent (exec startWarp s).
Proof.
  intros ([Hnd Hlt] & Href & Hj & Hf & H12). unfold Coherent, exec; simpl.
  split; [now apply WfQueue_push|].
  split.
  { intros i [= <-]. simpl. split; [lia|]. intros u Hu E.
    apply in_app_or in Hu as [Hu|[<-|[]]]; [|reflexivity].
    rewrite Forall_forall in Hlt. specialize (Hlt u Hu). simpl in Hlt. lia. }
  split; [|split; [|discriminate]].
  - intros H. destruct (Hj H) as (u & Hu & Eu). exists u.
    split; [now apply Coherent_push|exact Eu].
  - intros H. destruct (Hf H) as (u & Hu & Eu). exists u.
    split; [now apply Coherent_push|exact Eu].
Qed.

(** What a release does to the queue: it drops the timer [timerRef] names,
    if any, and nothing else. *)
Lemma timers_onMouseUp (s : State) :
  timers (exec onMouseUp s) =
  match timerRef s with
  | Some i => dropTimer i (timers s)
  | None => timers s
  end.
Proof.
  unfold exec, onMouseUp, bind, getTimerRef. destruct (timerRef s); reflexivity.
Qed.

Lemma onMouseUp_fields (s : State) :
  speed (exec onMouseUp s) = 1%Q /\
  currentScene (exec onMouseUp s) = currentScene s /\
  isJumping (exec onMouseUp s) = isJumping s /\
  flash (exec onMouseUp s) = flash s /\
  timerRef (exec onMouseUp s) = timerRef s /\
  nextId (exec onMouseUp s) = nextId s /\
  now (exec onMouseUp s) = now s /\
  scrollX (exec onMouseUp s) = scrollX s /\
  scrollY (exec onMouseUp s) = scrollY s.
Proof.
  unfold exec, onMouseUp, bind, getTimerRef.
  destruct (timerRef s) eqn:E; simpl; rewrite ?E; repeat split.
Qed.

Lemma release_keeps_others (s : State) (u : Timer) :
  RefIsCharge s -> In u (timers s) -> cb u <> WarpFire ->
  In u (timers (exec onMouseUp s)).
Proof.
  intros Href Hu Hcb. rewrite timers_onMouseUp.
  destruct (timerRef s) as [i|] eqn:Ei; [|exact Hu].
  apply In_dropTimer. split; [exact Hu|].
  intros E. apply Hcb. destruct (Href i Ei) as [_ H]. now apply H.
Qed.

Lemma Coherent_onMouseUp (s : State) :
  Coherent s -> Coherent (exec onMouseUp s).
Proof.
  intros (Hwf & Href & Hj & Hf & H12).
  destruct (onMouseUp_fields s) as (Esp & _ & Ej & Ef & Er & En & _).
  unfold Coherent. rewrite Esp, Ej, Ef, En.
  split.
  { rewrite timers_onMouseUp. destruct (timerRef s); [|exact Hwf].
    now apply WfQueue_drop. }
  split.
  { intros i Hi. rewrite Er in Hi. destruct (Href i Hi) as [Hlt Hcb].
    rewrite En. split; [exact Hlt|]. intros u Hu. apply Hcb.
    rewrite timers_onMouseUp in Hu. destruct (timerRef s); [|exact Hu].
    now apply In_dropTimer in Hu as [Hu _]. }
  split; [|split; [|discriminate]].
  - intros H. destruct (Hj H) as (u & Hu & Eu). exists u. split; [|exact Eu].
    apply release_keeps_others; auto. intros E. rewrite E in Eu. discriminate.
  - intros H. destruct (Hf H) as (u & Hu & Eu). exists u. split; [|exact Eu].
    apply release_keeps_others; auto. intros E. rewrite E in Eu. discriminate.
Qed.

Lemma Coherent_advance (d : Z) (s : State) : Coherent s -> Coherent (advance d s).
Proof.
  unfold advance. apply (advanceTo_ind Coherent).
  - intros s' t H. exact H.
  - intros s' tm Hin _ H. now apply Coherent_fire.
Qed.

Lemma Coherent_dispatch (e : Event) (s s' : State) :
  Coherent s -> dispatch e s = Some s' -> Coherent s'.
Proof.
  intros Hc. destruct e; simpl.
  - destruct (SceneId_eqb (currentScene s) travel); [|discriminate].
    intros [= <-]. now apply Coherent_startWarp.
  - destruct (SceneId_eqb (currentScene s) travel); [|discriminate].
    intros [= <-]. now apply Coherent_onMouseUp.
  - destruct (nextButton (currentScene s)); [|discriminate].
    intros [= <-]. now apply Coherent_handleJump.
  - intros [= <-]. exact Hc.
  - destruct (0 <=? d); [|discriminate].
    intros [= <-]. now apply Coherent_advance.
Qed.

Lemma Coherent_run (evs : list Event) (s s' : State) :
  Coherent s -> run evs s = Some s' -> Coherent s'.
Proof.
  revert s; induction evs as [|e evs IH]; simpl; intros s Hc.
  - now intros [= <-].
  - destruct (dispatch e s) as [s1|] eqn:E; [|discriminate].
    apply IH. exact (Coherent_dispatch e s s1 Hc E).
Qed.

Lemma Reachable_Coherent (s : State) : Reachable s -> Coherent s.
Proof. intros [evs H]. exact (Coherent_run evs _ _ Coherent_initialState H). Qed.

(** ** Timing of the queue *)

(** The loop, seen from inside: what holds before each firing of the
    earliest due timer holds when the loop stops, and there no pending
    timer is due by [target]. *)
Lemma advanceTo_loop (P Q : State -> Prop) (target : Z) :
  (forall s tm, earliest (timers s) = Some tm -> due tm <= target ->
     P s -> P (fire tm s)) ->
  (forall s, P s -> Forall (fun tm => target < due tm) (timers s) ->
     Q (setNow target s)) ->
  forall s, P s -> Q (advanceTo target s).
Proof.
  intros Hfire Hstop s.
  remember (queueWeight (timers s)) as w eqn:Ew.
  revert s Ew. induction w as [w IH] using lt_wf_ind. intros s Ew Hs.
  rewrite advanceTo_eq.
  destruct (earliest (timers s)) as [tm|] eqn:E.
  - destruct (Z.leb_spec (due tm) target).
    + apply (IH (queueWeight (timers (fire tm s)))); auto.
      subst w. apply fire_decreases. now apply earliest_In.
    + apply Hstop; [exact Hs|]. apply Forall_forall. intros u Hu.
      pose proof (earliest_least _ _ E u Hu). lia.
  - apply Hstop; [exact Hs|]. apply earliest_None in E. rewrite E. constructor.
Qed.

Lemma Forall_dropTimer (P : Timer -> Prop) (i : Z) (l : list Timer) :
  Forall P l -> Forall P (dropTimer i l).
Proof.
  rewrite !Forall_forall. intros H u Hu.
  apply In_dropTimer in Hu as [Hu _]. auto.
Qed.

Lemma Timely_fire_earliest (target : Z) (s : State) (tm : Timer) :
  earliest (timers s) = Some tm -> due tm <= target ->
  now s <= target /\ Timely s ->
  now (fire tm s) <= target /\ Timely (fire tm s).
Proof.
  intros E Hdue [Hnow Ht]. unfold Timely in *.
  pose proof (earliest_In _ _ E) as Hin.
  pose proof (earliest_least _ _ E) as Hleast.
  rewrite Forall_forall in Ht. pose proof (Ht tm Hin) as Htm.
  assert (En : now (fire tm s) = due tm) by (rewrite now_fire; lia).
  rewrite En. split; [exact Hdue|].
  apply Forall_forall. intros u Hu.
  rewrite fire_timers in Hu. apply in_app_or in Hu as [H|H].
  - apply In_dropTimer in H as [H _].
    specialize (Ht u H). specialize (Hleast u H). lia.
  - destruct (cb tm); simpl in H; try contradiction;
      destruct H as [<-|[]]; simpl; lia.
Qed.

Lemma Timely_advance (d : Z) (s : State) :
  0 <= d -> Timely s -> Timely (advance d s).
Proof.
  intros Hd Ht. unfold advance.
  apply (advanceTo_loop (fun s' => now s' <= now s + d /\ Timely s') Timely).
  - intros s' tm. apply Timely_fire_earliest.
  - intros s' [Hnow Ht'] Hlate. unfold Timely in *. simpl.
    rewrite Forall_forall in *. intros u Hu.
    specialize (Ht' u Hu). specialize (Hlate u Hu). simpl in *. lia.
  - split; [lia|exact Ht].
Qed.

Lemma Timely_push (s : State) (c : Callback) (l : list Timer) :
  Forall (fun tm => now s <= due tm <= now s + delayOf (cb tm)) l ->
  Forall (fun tm => now s <= due tm <= now s + delayOf (cb tm))
    (l ++ [mkTimer (nextId s) (now s + delayOf c) c]).
Proof.
  intros H. apply Forall_app. split; [exact H|].
  repeat constructor; simpl; destruct c; simpl; lia.
Qed.

Lemma Timely_dispatch (e : Event) (s s' : State) :
  Timely s -> dispatch e s = Some s' -> Timely s'.
Proof.
  intros Ht. destruct e; simpl.
  - destruct (SceneId_eqb (currentScene s) travel); [|discriminate].
    intros [= <-]. exact (Timely_push s WarpFire _ Ht).
  - destruct (SceneId_eqb (currentScene s) travel); [|discriminate].
    intros [= <-]. unfold Timely.
    destruct (onMouseUp_fields s) as (_ & _ & _ & _ & _ & _ & En & _).
    rewrite En, timers_onMouseUp.
    destruct (timerRef s); [now apply Forall_dropTimer|exact Ht].
  - destruct (nextButton (currentScene s)) as [t|]; [|discriminate].
    intros [= <-]. exact (Timely_push s (JumpFlash t) _ Ht).
  - intros [= <-]. exact Ht.
  - destruct (Z.leb_spec 0 d); [|discriminate].
    intros [= <-]. now apply Timely_advance.
Qed.

Lemma Timely_run (evs : list Event) (s s' : State) :
  Timely s -> run evs s = Some s' -> Timely s'.
Proof.
  revert s; induction evs as [|e evs IH]; simpl; intros s Ht.
  - now intros [= <-].
  - destruct (dispatch e s) as [s1|] eqn:E; [|discriminate].
    apply IH. exact (Timely_dispatch e s s1 Ht E).
Qed.

Lemma Reachable_Timely (s : State) : Reachable s -> Timely s.
Proof.
  intros [evs H]. apply (Timely_run evs initialState); [constructor|exact H].
Qed.

Lemma run_app (evs1 evs2 : list Event) (s : State) :
  run (evs1 ++ evs2) s =
  match run evs1 s with
  | Some s1 => run evs2 s1
  | None => None
  end.
Proof.
  revert s; induction evs1 as [|e evs1 IH]; simpl; intros s; [reflexivity|].
  destruct (dispatch e s); [apply IH|reflexivity].
Qed.

Lemma Reachable_dispatch (e : Event) (s s' : State) :
  Reachable s -> dispatch e s = Some s' -> Reachable s'.
Proof.
  intros [evs H] He. exists (evs ++ [e]).
  rewrite run_app, H. simpl. now rewrite He.
Qed.

(** Once the clock passes the end of every chain in flight, nothing is
    pending. *)
Lemma advanceTo_drains_by (target : Z) (s : State) :
  Forall (fun tm => now s <= due tm /\ due tm + tailOf (cb tm) <= target)
    (timers s) ->
  timers (advanceTo target s) = [].
Proof.
  apply (advanceTo_loop
           (fun s' => Forall (fun tm => now s' <= due tm /\
                                        due tm + tailOf (cb tm) <= target)
                        (timers s'))
           (fun s' => timers s' = [])).
  - intros s' tm E Hdue Hall.
    pose proof (earliest_In _ _ E) as Hin.
    pose proof (earliest_least _ _ E) as Hleast.
    rewrite Forall_forall in Hall. pose proof (Hall tm Hin) as Htm.
    assert (En : now (fire tm s') = due tm) by (rewrite now_fire; lia).
    rewrite En. apply Forall_forall. intros u Hu.
    rewrite fire_timers in Hu. apply in_app_or in Hu as [H|H].
    + apply In_dropTimer in H as [H _].
      specialize (Hall u H). specialize (Hleast u H). lia.
    + destruct (cb tm); simpl in H, Htm; try contradiction;
        destruct H as [<-|[]]; simpl; lia.
  - intros s' Hall Hlate. simpl.
    destruct (timers s') as [|u l]; [reflexivity|].
    inversion Hall as [|? ? [_ H1] _]; subst.
    inversion Hlate as [|? ? H2 _]; subst.
    destruct (cb u); simpl in H1; lia.
Qed.

Lemma advanceTo_drains (target : Z) (s : State) :
  Timely s -> now s + 7000 <= target ->
  timers (advanceTo target s) = [].
Proof.
  intros Ht Htarget. apply advanceTo_drains_by.
  unfold Timely in Ht. rewrite Forall_forall in *. intros u Hu.
  specialize (Ht u Hu). destruct (cb u); simpl in *; lia.
Qed.

(** ** Rest, and the way back to it *)

Lemma reachable_quiescent_resting (s : State) :
  Reachable s -> timers s = [] -> Resting s.
Proof.
  intros Hr Ht.
  pose proof (Reachable_Coherent s Hr) as (_ & _ & Hj & Hf & _).
  destruct Hr as [evs Hrun].
  pose proof (Inv_run evs _ _ Inv_initialState Hrun) as (_ & _ & Hrest).
  split; [exact Ht|].
  split; [|split].
  - destruct (isJumping s); [|reflexivity].
    destruct (Hj eq_refl) as (u & Hu & _). rewrite Ht in Hu. contradiction.
  - destruct (flash s); [|reflexivity].
    destruct (Hf eq_refl) as (u & Hu & _). rewrite Ht in Hu. contradiction.
  - destruct Hrest as [H|(u & Hu & _)]; [exact H|].
    rewrite Ht in Hu. contradiction.
Qed.

(** X1. In every reachable state [isJumping] is true only while a step of a
    jump that leads to its swap is pending, [flash] is true only while a
    step that leads to [setFlash(false)] is pending, and a state with no
    timer pending is at rest. *)
Theorem quiescent_is_resting (s : State) :
  Reachable s ->
  (isJumping s = true ->
     exists tm, In tm (timers s) /\ isJumpStep (cb tm) = true) /\
  (flash s = true ->
     exists tm, In tm (timers s) /\ clearsFlash (cb tm) = true) /\
  (timers s = [] -> Resting s).
Proof.
  intros Hr. pose proof (Reachable_Coherent s Hr) as (_ & _ & Hj & Hf & _).
  split; [exact Hj|]. split; [exact Hf|].
  now apply reachable_quiescent_resting.
Qed.

Lemma reachable_flashing :
  Reachable (mkState 12%Q travel true true (Some 1) 0 0 6100
               [mkTimer 3 6200 (JumpSwap blackhole)] 4).
Proof. exists [MouseDown; Tick 6100]. reflexivity. Defined.

Lemma quiescent_is_resting_witness :
  exists tm,
    In tm [mkTimer 3 6200 (JumpSwap blackhole)] /\ clearsFlash (cb tm) = true.
Proof.
  destruct (quiescent_is_resting _ reachable_flashing) as (_ & Hf & _).
  exact (Hf eq_refl).
Defined.

(** X2. From any reachable state, 7000 ms without user input are enough for
    everything in flight to end: no timer is pending, [isJumping] and
    [flash] are false, [speed] is the resting speed of the scene shown, the
    overlay is transparent and the star field is back at 5000. *)
Theorem settles_within_7s (s : State) (d : Z) :
  Reachable s -> 7000 <= d ->
  let s' := advance d s in
  timers s' = [] /\ Resting s' /\
  overlayOpacity (flash s') = 0 /\ starsCount (isJumping s') = 5000.
Proof.
  intros Hr Hd. cbv zeta.
  assert (Ht : timers (advance d s) = []).
  { unfold advance. apply advanceTo_drains; [now apply Reachable_Timely|lia]. }
  assert (Hr' : Reachable (advance d s)).
  { apply (Reachable_dispatch (Tick d) s); [exact Hr|]. simpl.
    destruct (Z.leb_spec 0 d); [reflexivity|lia]. }
  pose proof (reachable_quiescent_resting _ Hr' Ht) as Hres.
  split; [exact Ht|]. split; [exact Hres|].
  destruct Hres as (_ & Hj & Hf & _). rewrite Hj, Hf. split; reflexivity.
Qed.

Lemma reachable_charging :
  Reachable (mkState 8%Q travel false false (Some 1) 0 0 0
               [mkTimer 1 5000 WarpFire] 2).
Proof. exists [MouseDown]. reflexivity. Defined.

Lemma settles_within_7s_witness :
  let s' := advance 7000 (mkState 8%Q travel false false (Some 1) 0 0 0
                            [mkTimer 1 5000 WarpFire] 2) in
  timers s' = [] /\ Resting s' /\
  overlayOpacity (flash s') = 0 /\ starsCount (isJumping s') = 5000.
Proof.
  apply (settles_within_7s _ 7000 reachable_charging). lia.
Defined.

(** The bound is met: one millisecond earlier the overlay of a charge held
    from the start is still opaque. *)
Example not_settled_at_6999 :
  flash (advance 6999 (mkState 8%Q travel false false (Some 1) 0 0 0
                         [mkTimer 1 5000 WarpFire] 2)) = true.
Proof. reflexivity. Qed.

(** X3. In every reachable state a release of the charge button cancels no
    step of a jump: every pending timer other than a charge timer is still
    pending after it. *)
Theorem release_never_cancels_jump (s s' : State) (tm : Timer) :
  Reachable s -> dispatch MouseUp s = Some s' ->
  In tm (timers s) -> cb tm <> WarpFire ->
  In tm (timers s').
Proof.
  intros Hr Hup Hin Hcb. pose proof (Reachable_Coherent s Hr) as (_ & Href & _).
  simpl in Hup. destruct (SceneId_eqb (currentScene s) travel); [|discriminate].
  injection Hup as <-. now apply release_keeps_others.
Qed.

Lemma reachable_jump_started :
  Reachable (mkState 12%Q travel true false (Some 1) 0 0 5500
               [mkTimer 2 6000 (JumpFlash blackhole)] 3).
Proof. exists [MouseDown; Tick 5500]. reflexivity. Defined.

Lemma release_never_cancels_jump_witness :
  In (mkTimer 2 6000 (JumpFlash blackhole))
     (timers (mkState 1%Q travel true false (Some 1) 0 0 5500
                [mkTimer 2 6000 (JumpFlash blackhole)] 3)).
Proof.
  apply (release_never_cancels_jump _ _ (mkTimer 2 6000 (JumpFlash blackhole))
           reachable_jump_started).
  - reflexivity.
  - now left.
  - discriminate.
Defined.

Lemma dropTimer_idem (i : Z) (l : list Timer) :
  dropTimer i (dropTimer i l) = dropTimer i l.
Proof.
  induction l as [|t l IH]; simpl; [reflexivity|].
  destruct (tid t =? i) eqn:E; simpl; [exact IH|].
  rewrite E. simpl. now rewrite IH.
Qed.

(** X4. Releasing twice is releasing once: a second [onMouseUp] changes
    nothing, whatever the state. *)
Theorem release_idempotent (s : State) :
  exec onMouseUp (exec onMouseUp s) = exec onMouseUp s.
Proof.
  destruct s as [sp sc ij fl tr sx sy nw tms ni].
  unfold exec, onMouseUp, bind, getTimerRef. simpl.
  destruct tr as [i|]; simpl; [|reflexivity].
  unfold setTimers. simpl. now rewrite dropTimer_idem.
Qed.

(** X5. At rest in the travel scene a release is a no-op: whatever handle
    [timerRef] still holds names no pending timer, and [speed] is 1
    already. *)
Theorem release_at_rest_noop (s : State) :
  Resting s -> currentScene s = travel ->
  dispatch MouseUp s = Some s.
Proof.
  intros Hr Hc. rewrite (resting_travel_shape s Hr Hc). simpl.
  unfold exec, onMouseUp, bind, getTimerRef. simpl.
  destruct (timerRef s); reflexivity.
Qed.

Lemma release_at_rest_noop_witness :
  dispatch MouseUp initialState = Some initialState.
Proof.
  apply (release_at_rest_noop initialState initialState_resting). reflexivity.
Defined.

(** X6. A click on a scene's advance button at rest, then at least 2000 ms:
    the machine is at rest in the scene that button is bound to, scrolled to
    the top. *)
Theorem click_from_rest (s : State) (target : SceneId) (d : Z) :
  Resting s -> nextButton (currentScene s) = Some target -> 2000 <= d ->
  exists s',
    run [Click; Tick d] s = Some s' /\
    Resting s' /\ currentScene s' = target /\
    scrollX s' = 0 /\ scrollY s' = 0 /\ now s' = now s + d.
Proof.
  intros (Ht & Hj & Hf & Hs) Hb Hd.
  exists (advance d (exec (handleJump target) s)).
  split.
  { cbn [run dispatch]. rewrite Hb.
    destruct (Z.leb_spec 0 d); [reflexivity|lia]. }
  rewrite (State_eta s), Ht. rewrite jump_settled by assumption.
  unfold Resting. simpl. repeat split.
Qed.

Lemma resting_in_blackhole :
  Resting (mkState 0.2%Q blackhole false false (Some 1) 0 0 7000 [] 5).
Proof. repeat split. Defined.

Lemma click_from_rest_witness :
  exists s',
    run [Click; Tick 2000]
      (mkState 0.2%Q blackhole false false (Some 1) 0 0 7000 [] 5) = Some s' /\
    Resting s' /\ currentScene s' = wormhole /\
    scrollX s' = 0 /\ scrollY s' = 0 /\ now s' = 7000 + 2000.
Proof.
  apply (click_from_rest _ wormhole 2000 resting_in_blackhole);
    [reflexivity|lia].
Defined.

(** Exhibit the state a given run ends in, and check it is at rest. *)
Ltac reach_by evs :=
  let r := eval vm_compute in (run evs initialState) in
  match r with
  | Some ?st =>
      exists st; split;
      [ exists evs; vm_compute; reflexivity
      | split; [repeat split | reflexivity] ]
  end.

(** X7. Every scene can be reached and come to rest: no scene of the tour
    is dead. *)
Theorem every_scene_reachable_at_rest (scene : SceneId) :
  exists s, Reachable s /\ Resting s /\ currentScene s = scene.
Proof.
  pose (tour := fun n : nat =>
    [MouseDown; Tick 7000] ++ List.concat (repeat [Click; Tick 2000] n)).
  destruct scene;
    [ reach_by (@nil Event) | reach_by (tour 0%nat) | reach_by (tour 1%nat)
    | reach_by (tour 2%nat) | reach_by (tour 3%nat) | reach_by (tour 4%nat) ].
Qed.

(** X8. Only the swap step of a jump changes the scene: no user event does,
    and a timer that changes it when it fires is a swap to the scene then
    shown. *)
Theorem only_swap_changes_scene (s : State) :
  (forall e s', (forall d, e <> Tick d) -> dispatch e s = Some s' ->
     currentScene s' = currentScene s /\ flash s' = flash s) /\
  (forall tm, currentScene (fire tm s) <> currentScene s ->
     cb tm = JumpSwap (currentScene (fire tm s))).
Proof.
  split.
  - intros e s' Hne. destruct e; simpl.
    + destruct (SceneId_eqb (currentScene s) travel); [|discriminate].
      intros [= <-]. split; reflexivity.
    + destruct (SceneId_eqb (currentScene s) travel); [|discriminate].
      intros [= <-]. destruct (onMouseUp_fields s) as (_ & H1 & _ & H2 & _).
      split; assumption.
    + destruct (nextButton (currentScene s)); [|discriminate].
      intros [= <-]. split; reflexivity.
    + intros [= <-]. split; reflexivity.
    + exfalso. now apply (Hne d).
  - intros tm. unfold fire, exec. destruct (cb tm); simpl; intros H;
      solve [reflexivity | now contradiction H].
Qed.

Lemma only_swap_changes_scene_witness :
  currentScene (exec startWarp initialState) = travel /\
  cb (mkTimer 3 6200 (JumpSwap blackhole)) = JumpSwap blackhole.
Proof.
  destruct (only_swap_changes_scene initialState) as [Hev _].
  destruct (Hev MouseDown (exec startWarp initialState)) as [H _];
    [discriminate|reflexivity|].
  split; [exact H|].
  destruct (only_swap_changes_scene
              (mkState 12%Q travel true true (Some 1) 0 0 6100
                 [mkTimer 3 6200 (JumpSwap blackhole)] 4)) as [_ Hfire].
  apply (Hfire (mkTimer 3 6200 (JumpSwap blackhole))). discriminate.
Defined.

(** X9. Letting [d1] ms pass and then [d2] ms is letting [d1 + d2] ms pass:
    every callback registers its successor relative to the moment it fires,
    so where the wait is cut makes no difference. *)
Theorem tick_composes (d1 d2 : Z) (s s1 : State) :
  dispatch (Tick d1) s = Some s1 -> 0 <= d2 ->
  dispatch (Tick d2) s1 = dispatch (Tick (d1 + d2)) s.
Proof.
  simpl. destruct (Z.leb_spec 0 d1); [|discriminate].
  intros [= <-] H2.
  destruct (Z.leb_spec 0 d2); [|lia].
  destruct (Z.leb_spec 0 (d1 + d2)); [|lia].
  now rewrite advance_advance.
Qed.

Lemma tick_composes_witness :
  dispatch (Tick 700) (advance 5600 (exec startWarp initialState)) =
  dispatch (Tick (5600 + 700)) (exec startWarp initialState).
Proof.
  apply (tick_composes 5600 700 (exec startWarp initialState)).
  - reflexivity.
  - lia.
Defined.

(** X10. The camera shakes only while a charge is held: in every reachable
    state the jitter condition of [CameraManager] holds exactly when [speed]
    is 8 and [isJumping] is false; at speed 12 [isJumping] is always true,
    and at the resting speeds nothing exceeds 1. *)
Theorem jitter_only_while_charging (s : State) :
  Reachable s ->
  (jitterCond (speed s) (isJumping s) = true <->
   speed s = 8%Q /\ isJumping s = false) /\
  (speed s = 12%Q -> isJumping s = true).
Proof.
  intros Hr. pose proof (Reachable_Coherent s Hr) as (_ & _ & _ & _ & H12).
  destruct Hr as [evs Hrun].
  pose proof (Inv_run evs _ _ Inv_initialState Hrun) as (_ & Hsp & _).
  split; [|exact H12].
  destruct Hsp as [E|[E|[E|E]]]; rewrite E in *.
  - split; [intros H; discriminate H|intros [H _]; discriminate H].
  - unfold jitterCond. simpl. destruct (isJumping s); split;
      try (intros H; discriminate H); auto.
    intros [_ H]; discriminate H.
  - rewrite (H12 eq_refl). split; [intros H; discriminate H|].
    intros [H _]; discriminate H.
  - split; [intros H; discriminate H|intros [H _]; discriminate H].
Qed.

Lemma jitter_only_while_charging_witness :
  jitterCond 8%Q false = true <-> 8%Q = 8%Q /\ false = false.
Proof.
  exact (proj1 (jitter_only_while_charging _ reachable_charging)).
Defined.

(** ** What is mounted *)

(** X11. Whatever the scene, exactly one 3D model and exactly one content
    block are mounted, they stand at the same position in their lists (the
    n-th model goes with the n-th block), and the block's control is the
    charge button in the travel scene and otherwise the button bound to the
    scene a click leads to. *)
Theorem one_model_one_block (scene : SceneId) :
  exists m,
    canvasModels scene = [m] /\
    contentBlocks scene =
      [(modelIndex m,
        match nextButton scene with
        | Some target => JumpButton target
        | None => ChargeButton
        end)].
Proof.
  destruct scene; eexists; split; reflexivity.
Qed.

(** * Further properties of the camera and the scene models *)

Local Open Scope Q_scope.

Lemma cameraFrames_cons (sp : Q) (j : bool) (props : list (Q * bool))
  (st : Rng * Camera) :
  cameraFrames ((sp, j) :: props) st = cameraFrames props (cameraFrame sp j st).
Proof. reflexivity. Qed.

Lemma draws_frame (sp : Q) (j : bool) (st : Rng * Camera) :
  draws (fst (cameraFrame sp j st)) = draws (fst st).
Proof.
  destruct st as [g c]. unfold cameraFrame.
  destruct (jitterCond sp j); reflexivity.
Qed.

Lemma posZ_frame (sp : Q) (j : bool) (st : Rng * Camera) :
  posZ (snd (cameraFrame sp j st)) = posZ (snd st).
Proof.
  destruct st as [g c]. unfold cameraFrame.
  destruct (jitterCond sp j); reflexivity.
Qed.

(** X12. While the jitter condition fails on every frame (at rest, or during
    a jump), the camera does not move and no random number is drawn, however
    many frames pass. *)
Theorem camera_still_without_jitter
  (props : list (Q * bool)) (st : Rng * Camera) :
  Forall (fun p => jitterCond (fst p) (snd p) = false) props ->
  fst (cameraFrames props st) = fst st /\
  posX (snd (cameraFrames props st)) = posX (snd st) /\
  posY (snd (cameraFrames props st)) = posY (snd st) /\
  posZ (snd (cameraFrames props st)) = posZ (snd st).
Proof.
  intros Hall. revert st.
  induction Hall as [|[sp j] props Hc _ IH]; intros st; [simpl; auto|].
  rewrite cameraFrames_cons. simpl in Hc.
  destruct (IH (cameraFrame sp j st)) as (Hg & Hx & Hy & Hz).
  destruct st as [g c].
  destruct (frame_still g sp j c Hc) as (Hg' & Hx' & Hy' & Hz').
  rewrite Hg, Hx, Hy, Hz. simpl. auto.
Qed.

Lemma resting_frames_still :
  Forall (fun p : Q * bool => jitterCond (fst p) (snd p) = false)
    [(0.2, false); (12, true); (1, false)].
Proof. repeat constructor. Defined.

Lemma camera_still_without_jitter_witness :
  posX (snd (cameraFrames [(0.2, false); (12, true); (1, false)]
               (mkRng (fun _ => 0.25) 0, initialCamera 1024))) = 0.
Proof.
  exact (proj1 (proj2 (camera_still_without_jitter _
           (mkRng (fun _ => 0.25) 0, initialCamera 1024) resting_frames_still))).
Defined.

Lemma fov_range_frame (sp : Q) (j : bool) (st : Rng * Camera) :
  75 <= fov (snd st) <= 140 ->
  75 <= fov (snd (cameraFrame sp j st)) <= 140.
Proof.
  intros H. rewrite fov_frame. unfold lerp, targetFOV. destruct j; lra.
Qed.

(** X13. From the camera the canvas starts with, at any viewport width and
    through any sequence of frames, the field of view stays between 75 and
    140 degrees, the projection is the one built from the current field of
    view, and the camera keeps its distance [z = 10]. *)
Theorem fov_stays_in_range
  (innerWidth : Z) (g : Rng) (props : list (Q * bool)) :
  let c := snd (cameraFrames props (g, initialCamera innerWidth)) in
  75 <= fov c <= 140 /\ projFov c = fov c /\ posZ c = 10.
Proof.
  cbv zeta.
  assert (H : forall st,
            75 <= fov (snd st) <= 140 /\ projFov (snd st) = fov (snd st) ->
            75 <= fov (snd (cameraFrames props st)) <= 140 /\
            projFov (snd (cameraFrames props st)) =
              fov (snd (cameraFrames props st)) /\
            posZ (snd (cameraFrames props st)) = posZ (snd st)).
  { induction props as [|[sp j] props IH]; intros st [Hr Hp].
    - simpl. auto.
    - rewrite cameraFrames_cons.
      destruct (IH (cameraFrame sp j st)) as (H1 & H2 & H3).
      + split; [now apply fov_range_frame|apply projFov_frame].
      + rewrite posZ_frame in H3. auto. }
  apply H. unfold initialCamera. simpl.
  destruct (innerWidth <? 768)%Z; simpl; split; try reflexivity; lra.
Qed.

Lemma frame_step_bound (g : Rng) (sp : Q) (j : bool) (c : Camera) :
  (forall n, 0 <= draws g n < 1) -> sp <= 12 ->
  let c' := snd (cameraFrame sp j (g, c)) in
  - 0.09 <= posX c' - posX c <= 0.09 /\ - 0.09 <= posY c' - posY c <= 0.09.
Proof.
  intros Hg Hsp. cbv zeta.
  destruct (jitterCond sp j) eqn:Hc.
  - destruct (frame_jitters g Hg sp j c Hc) as (_ & _ & _ & _ & Hx & Hy).
    unfold inHalfOpenRange, jitterHalfWidth in *. lra.
  - destruct (frame_still g sp j c Hc) as (_ & Hx & Hy & _).
    rewrite Hx, Hy. lra.
Qed.

(** X15. Jitter drifts at most linearly: with every speed at most 12 (all
    assigned speeds are), after [n] frames X and Y are each within
    [0.09 * n] of where they started. *)
Theorem camera_drift_bound
  (g : Rng) (props : list (Q * bool)) (c : Camera) :
  (forall n, 0 <= draws g n < 1) ->
  Forall (fun p => fst p <= 12) props ->
  let c' := snd (cameraFrames props (g, c)) in
  let n := inject_Z (Z.of_nat (List.length props)) in
  - (0.09 * n) <= posX c' - posX c <= 0.09 * n /\
  - (0.09 * n) <= posY c' - posY c <= 0.09 * n.
Proof.
  intros Hg Hall. cbv zeta. revert g c Hg.
  induction Hall as [|[sp j] props Hsp _ IH]; intros g c Hg.
  - cbn [cameraFrames snd List.length Z.of_nat].
    change (inject_Z 0) with 0. lra.
  - rewrite cameraFrames_cons. simpl in Hsp.
    pose proof (frame_step_bound g sp j c Hg Hsp) as Hstep. cbv zeta in Hstep.
    pose proof (draws_frame sp j (g, c)) as Hdr.
    remember (cameraFrame sp j (g, c)) as st1 eqn:E1.
    destruct st1 as [g1 c1]. simpl in Hstep, Hdr.
    assert (Hg1 : forall n, 0 <= draws g1 n < 1) by (now rewrite Hdr).
    specialize (IH g1 c1 Hg1).
    assert (En : inject_Z (Z.of_nat (List.length ((sp, j) :: props))) ==
                 inject_Z (Z.of_nat (List.length props)) + 1).
    { simpl List.length. rewrite Nat2Z.inj_succ. unfold Z.succ.
      rewrite inject_Z_plus. reflexivity. }
    rewrite En. lra.
Qed.

Lemma charging_frames_bounded :
  Forall (fun p : Q * bool => fst p <= 12) [(8, false); (8, false); (12, true)].
Proof. repeat constructor; discriminate. Defined.

Lemma camera_drift_bound_witness :
  let c' := snd (cameraFrames [(8, false); (8, false); (12, true)]
                   (mkRng (fun _ => 0.25) 0, initialCamera 1024)) in
  - (0.09 * 3) <= posX c' - 0 <= 0.09 * 3.
Proof.
  exact (proj1 (camera_drift_bound (mkRng (fun _ => 0.25) 0)
                  [(8, false); (8, false); (12, true)] (initialCamera 1024)
                  half_draws_range charging_frames_bounded)).
Defined.

(** ** The scene models *)

(** X17. With its ref not yet set, the wormhole's frame callback throws on
    the first frame it runs, since it reads [ref.current.rotation] without a
    test; the earth, project and contact callbacks test [ref.current] first
    and never throw, leaving an unset ref unset. *)
Theorem unset_ref_behaviour (sin : Q -> Q) (t : Q) (n : nat) :
  framesOf wormholeFrame (S n) None = Threw /\
  framesOf earthFrame n None = Returned None /\
  framesOf (projectFrame sin t) n None = Returned None /\
  framesOf (contactFrame sin t) n None = Returned None /\
  (forall ref, earthFrame ref <> Threw /\
               projectFrame sin t ref <> Threw /\
               contactFrame sin t ref <> Threw /\
               (wormholeFrame ref = Threw <-> ref = None)).
Proof.
  split; [reflexivity|].
  split; [induction n; simpl; auto|].
  split; [induction n; simpl; auto|].
  split; [induction n; simpl; auto|].
  intros [o|]; simpl; repeat split; try discriminate; auto.
Qed.

(** X18. The project model's rotation and the contact model's height
    oscillate: whatever the object was before, after the frame at clock time
    [t] the project's [rotation.y] is [sin(0.3 t) * 0.2], within 0.2 of 0,
    and the contact's [position.y] is [sin(t) * 0.15], within 0.15 of 0;
    nothing of the earlier value is kept. *)
Theorem models_oscillate (sin : Q -> Q) (t : Q) (o1 o2 : Object3D) :
  (forall x, - 1 <= sin x <= 1) ->
  (exists a b,
     projectFrame sin t (Some o1) = Returned (Some a) /\
     projectFrame sin t (Some o2) = Returned (Some b) /\
     rotationY a = rotationY b /\
     - 0.2 <= rotationY a <= 0.2 /\
     rotationZ a = rotationZ o1 /\ positionY a = positionY o1) /\
  (exists a b,
     contactFrame sin t (Some o1) = Returned (Some a) /\
     contactFrame sin t (Some o2) = Returned (Some b) /\
     positionY a = positionY b /\
     - 0.15 <= positionY a <= 0.15 /\
     rotationY a = rotationY o1 /\ rotationZ a = rotationZ o1).
Proof.
  intros Hsin. split.
  - eexists _, _. split; [reflexivity|]. split; [reflexivity|].
    split; [reflexivity|]. split; [|split; reflexivity].
    simpl. pose proof (Hsin (t * 0.3)). lra.
  - eexists _, _. split; [reflexivity|]. split; [reflexivity|].
    split; [reflexivity|]. split; [|split; reflexivity].
    simpl. pose proof (Hsin t). lra.
Qed.

Lemma unit_sin_range : forall x : Q, - 1 <= (fun _ : Q => 1) x <= 1.
Proof. intros x. split; discriminate. Defined.

Lemma models_oscillate_witness :
  exists a b,
    projectFrame (fun _ => 1) 2 (Some (mkObject3D 5 0 0)) = Returned (Some a) /\
    projectFrame (fun _ => 1) 2 (Some (mkObject3D 0 0 0)) = Returned (Some b) /\
    rotationY a = rotationY b /\
    - 0.2 <= rotationY a <= 0.2 /\
    rotationZ a = 0 /\ positionY a = 0.
Proof.
  exact (proj1 (models_oscillate (fun _ => 1) 2 (mkObject3D 5 0 0)
                  (mkObject3D 0 0 0) unit_sin_range)).
Defined.

(** X19. Every model but the ship has a responsive scale; it is positive and
    never shrinks as the viewport widens, with its one step at 768 pixels:
    two widths on the same side of 768 give the same scale. *)
Theorem model_scale_responsive (m : Model3D) (w1 w2 : Z) :
  (w1 <= w2)%Z ->
  (modelScale m w1 = None <-> m = SpaceShip) /\
  (forall a b, modelScale m w1 = Some a -> modelScale m w2 = Some b ->
     0 < a /\ a <= b /\
     (isMobile w1 = isMobile w2 -> a = b) /\
     (isMobile w1 = true -> isMobile w2 = false -> a < b)).
Proof.
  intros Hw. unfold isMobile. split.
  - destruct m; simpl; split; intros H; try discriminate; reflexivity.
  - intros a b. destruct m; simpl; try discriminate;
      destruct (Z.ltb_spec w1 768), (Z.ltb_spec w2 768);
      try lia; intros [= <-] [= <-];
      (split; [reflexivity|]);
      (split; [discriminate|]);
      (split; [intros E; solve [reflexivity | discriminate E]|]);
      intros E1 E2; solve [reflexivity | discriminate E1 | discriminate E2].
Qed.

Lemma model_scale_responsive_witness :
  modelScale EarthModel 400 = Some 2 /\
  modelScale EarthModel 1024 = Some 3.5 /\ 2 < 3.5.
Proof.
  split; [reflexivity|]. split; [reflexivity|].
  assert (Hw : (400 <= 1024)%Z) by lia.
  destruct (proj2 (model_scale_responsive EarthModel 400 1024 Hw)
              2 3.5 eq_refl eq_refl) as (_ & _ & _ & H).
  apply H; reflexivity.
Defined.

Local Close Scope Q_scope.

(** * Overlapping clicks, and the ship *)

Lemma Toward_fire (target : SceneId) (s : State) (tm : Timer) :
  In tm (timers s) -> Toward target s -> Toward target (fire tm s).
Proof.
  intros Hin (Hwf & Hall & Hsc).
  split; [now apply WfQueue_fire|].
  unfold targetsOnly in *. rewrite Forall_forall in Hall.
  pose proof (Hall tm Hin) as Htm.
  split.
  - apply Forall_forall. intros u Hu. rewrite fire_timers in Hu.
    apply in_app_or in Hu as [H|H].
    + apply In_dropTimer in H as [H _]. exact (Hall u H).
    + destruct (cb tm); simpl in H; try contradiction;
        destruct H as [<-|[]]; simpl; auto.
  - destruct (cb tm) eqn:Ecb; try contradiction.
    + right. exists (mkTimer (nextId s) (Z.max (now s) (due tm) + 200)
                       (JumpSwap nextScene)).
      split; [|reflexivity]. rewrite fire_timers, Ecb.
      apply in_or_app. right. now left.
    + left. unfold fire, exec. rewrite Ecb. simpl. exact Htm.
    + destruct Hsc as [Hs|(u & Hu & Eu)].
      * left. unfold fire, exec. rewrite Ecb. simpl. exact Hs.
      * right. exists u. split; [|exact Eu].
        apply survives_fire; auto. rewrite Ecb. intros E. rewrite E in Eu.
        discriminate.
Qed.

Lemma Toward_advanceTo (target : SceneId) (t : Z) (s : State) :
  Toward target s -> Toward target (advanceTo t s).
Proof.
  apply (advanceTo_ind (Toward target)).
  - intros s' x H. exact H.
  - intros s' tm Hin _ H. now apply Toward_fire.
Qed.

Lemma WfQueue_two (a b n da db : Z) (ca cb' : Callback) :
  a < b < n -> WfQueue [mkTimer a da ca; mkTimer b db cb'] n.
Proof.
  intros H. split.
  - simpl. constructor; [intros [E|[]]; lia|].
    constructor; [intros []|constructor].
  - repeat constructor; simpl; lia.
Qed.

(** X20. A second click on the same advance button while the first jump has
    not yet swapped the scene is harmless for where the tour goes: from a
    reachable state at rest, two clicks less than 1200 ms apart, then
    2000 ms of quiet, leave the machine at rest in the scene the button is
    bound to, as one click would. *)
Theorem double_click_same_target
  (s : State) (target : SceneId) (d d' : Z) :
  Reachable s -> Resting s -> nextButton (currentScene s) = Some target ->
  0 <= d < 1200 -> 2000 <= d' ->
  exists s',
    run [Click; Tick d; Click; Tick d'] s = Some s' /\
    Resting s' /\ currentScene s' = target.
Proof.
  intros Hreach (Ht & Hj & Hf & Hs) Hb Hd Hd'.
  set (s2 := advance d (exec (handleJump target) s)).
  assert (Hsc : currentScene s2 = currentScene s).
  { subst s2. rewrite (State_eta s), Ht.
    destruct (Z.lt_ge_cases d 1000);
      [rewrite jump_before_flash by lia|rewrite jump_flashing by lia];
      reflexivity. }
  set (s3 := exec (handleJump target) s2).
  assert (Hrun : run [Click; Tick d; Click; Tick d'] s = Some (advance d' s3)).
  { cbn [run dispatch]. rewrite Hb.
    destruct (Z.leb_spec 0 d); [|lia]. fold s2. rewrite Hsc, Hb. fold s3.
    destruct (Z.leb_spec 0 d'); [reflexivity|lia]. }
  exists (advance d' s3). split; [exact Hrun|].
  assert (H3 : Toward target s3 /\
               Forall (fun tm => now s3 <= due tm /\
                                 due tm + tailOf (cb tm) <= now s3 + d')
                 (timers s3)).
  { subst s3 s2. rewrite (State_eta s), Ht.
    destruct (Z.lt_ge_cases d 1000).
    - rewrite jump_before_flash by lia. unfold Toward, exec; simpl.
      split; [split; [apply WfQueue_two; lia|]|].
      + split; [repeat constructor|].
        right. eexists. split; [now left|reflexivity].
      + repeat constructor; simpl; lia.
    - rewrite jump_flashing by lia. unfold Toward, exec; simpl.
      split; [split; [apply WfQueue_two; lia|]|].
      + split; [repeat constructor|].
        right. eexists. split; [now left|reflexivity].
      + repeat constructor; simpl; lia. }
  destruct H3 as [Htow Hhor].
  assert (Hempty : timers (advance d' s3) = []).
  { unfold advance. now apply advanceTo_drains_by. }
  split.
  - apply reachable_quiescent_resting; [|exact Hempty].
    destruct Hreach as [evs He].
    exists (evs ++ [Click; Tick d; Click; Tick d']).
    now rewrite run_app, He.
  - unfold advance in *.
    destruct (Toward_advanceTo target (now s3 + d') s3 Htow)
      as (_ & _ & [H|(u & Hu & _)]); [exact H|].
    rewrite Hempty in Hu. contradiction.
Qed.

Lemma reachable_resting_blackhole :
  Reachable (mkState 0.2%Q blackhole false false (Some 1) 0 0 7000 [] 5).
Proof. exists [MouseDown; Tick 7000]. reflexivity. Defined.

Lemma double_click_same_target_witness :
  exists s',
    run [Click; Tick 300; Click; Tick 2000]
      (mkState 0.2%Q blackhole false false (Some 1) 0 0 7000 [] 5) = Some s' /\
    Resting s' /\ currentScene s' = wormhole.
Proof.
  apply (double_click_same_target _ wormhole 300 2000
           reachable_resting_blackhole resting_in_blackhole);
    [reflexivity|lia|lia].
Defined.

Local Open Scope Q_scope.

(** X21. The ship's effect sets the first clip playing at a time scale equal
    to [speed] and leaves the other clips alone; run again after a change of
    [speed] it overrides the earlier scale, so the scale always is the last
    speed; and on a model with no clip it throws. *)
Theorem ship_time_scale (sp1 sp2 : Q) (a : Action) (rest : list Action) :
  shipEffect sp1 (Some (a :: rest)) =
    EffectDone (Some (mkAction true sp1 :: rest)) /\
  (forall acts acts',
     shipEffect sp1 acts = EffectDone acts' ->
     shipEffect sp2 acts' = shipEffect sp2 acts) /\
  (forall acts, shipEffect sp1 acts = EffectThrew <-> acts = Some []) /\
  shipEffect sp1 None = EffectDone None.
Proof.
  split; [reflexivity|].
  split; [|split; [|reflexivity]].
  - intros [[|a0 l]|] acts'; simpl; intros H; try discriminate;
      injection H as <-; reflexivity.
  - intros [[|a0 l]|]; simpl; split; intros H; try discriminate; reflexivity.
Qed.

Local Close Scope Q_scope.

(** * A jump among the flash-offs of an earlier one *)










(** * Releasing a second charge *)

(** C3 as stated fails for a charge started while the timer of an earlier,
    never released charge is pending: the earlier timer fires during the
    hold, so at the release, 1500 ms into the second charge, [isJumping] is
    true and a jump step is pending, and the scene changes 700 ms later. *)
Lemma release_second_charge_fails :
  exists s3,
    run [MouseDown; Tick 4000; MouseDown; Tick 1500; MouseUp] initialState
      = Some s3 /\
    isJumping s3 = true /\
    timers s3 = [mkTimer 3 6000 (JumpFlash blackhole)] /\
    currentScene s3 = travel /\
    currentScene (advance 700 s3) = blackhole /\
    ~ (isJumping s3 = false).
Proof.
  exists (mkState 1%Q travel true false (Some 2) 0 0 5500
            [mkTimer 3 6000 (JumpFlash blackhole)] 4).
  split; [vm_compute; reflexivity|].
  repeat (split; [vm_compute; reflexivity|]).
  intros H. discriminate H.
Qed.
